(** * FN-Rares: the feed renderer of [app.js]

    A shallow embedding of the client-side script that fetches the shop feed
    [./data/top.json] and renders one card per item, and of the older
    promise-chain script kept under [docs/app.js].

    Modelling conventions.
    - A JavaScript string is the list of its UTF-16 code units.  String
      literals of the script are ASCII and are written [str "..."]; the
      double quote, which occurs in the card markup, is the code unit
      [dquote].
    - A day count is a Number with an integral value and is given by that
      value, a [Z]; the values that are binary64 numbers are those with
      [Number.is_double].  Arithmetic is binary64 arithmetic: a quotient is
      rounded to the nearest binary64 value before [Math.floor] sees it, and
      a Number is printed as [Number::toString] prints it.  Fractional,
      infinite and NaN day counts are outside the embedding.
    - The body of the response parses to an object, the feed.  An optional
      field of the feed is [undefined] (key missing), [null] or [present].
      The fields of an item have the types of the data model (strings, an
      integral Number).  An element of the item array is an object or
      [null]; an element that is a boolean, a number, a string or an array
      has none of the four keys and builds the card of the empty object.
    - Assigning to [innerHTML] hands the markup to the fragment parser.  The
      embedding reads the markup the two scripts produce from plain strings
      (text, and [a], [div] and [img] tags with double-quoted attributes)
      and markup of the same kind that a name or an icon brings along; on
      any other markup it gives no children.
    - The page is the record of what the script can observe or change: the
      children of [#grid], the text of [#updated] and the console.  Both
      elements are taken to exist in the page.
    - A thrown value travels in the left summand; mutations made before a
      throw persist, as in JavaScript.  The message of a TypeError is the
      one V8 gives; no statement depends on its wording. *)

From Stdlib Require Import ZArith NArith List String Ascii Bool Lia DecimalString.
From Stdlib Require Import DecimalPos DecimalZ SpecFloat.
Import ListNotations.

Set Implicit Arguments.
Set Warnings "-register-all".

(** ** Strings *)

Definition jsstring : Type := list N.

Definition str (s : string) : jsstring :=
  map N_of_ascii (list_ascii_of_string s).
Arguments str s%_string.

(** Every code unit of a JavaScript string is below [2^16]. *)
Definition code_units (s : jsstring) : Prop :=
  Forall (fun c => (c < 0x10000)%N) s.

Definition dquote : N := 34%N.
Definition newline : N := 10%N.
Definition spaces (n : nat) : jsstring := repeat 32%N n.

(** The decimal numeral of an integer: an optional minus sign and all the
    digits. *)
Definition num (z : Z) : jsstring :=
  str (NilZero.string_of_int (Z.to_int z)).

(** The characters [num] emits: the minus sign and the ten digits. *)
Definition num_char (c : N) : Prop := (c = 45 \/ 48 <= c <= 57)%N.

(** A value read from a JSON object or array: the key may be missing, hold
    [null], or hold a value of the expected type. *)
Inductive optional (A : Type) : Type :=
| undefined : optional A
| null : optional A
| present : A -> optional A.
Arguments undefined {A}.
Arguments null {A}.
Arguments present {A} _.

(** [v || d] for a string-typed field: [undefined], [null] and the empty
    string are falsy. *)
Definition or_default (v : optional jsstring) (d : jsstring) : jsstring :=
  match v with
  | present (c :: s) => c :: s
  | _ => d
  end.

Definition truthy (v : optional jsstring) : bool :=
  match v with
  | present (_ :: _) => true
  | _ => false
  end.

(** [v || []] for an array-typed field: every array, also the empty one, is
    truthy. *)
Definition or_empty {A : Type} (v : optional (list A)) : list A :=
  match v with
  | present l => l
  | _ => []
  end.

(** ** Numbers with an integral value *)

Module Number.
Local Open Scope Z_scope.

Definition MAX_SAFE_INTEGER : Z := 2 ^ 53 - 1.

(** [Number.isSafeInteger]. *)
Definition safe (z : Z) : Prop :=
  - MAX_SAFE_INTEGER <= z <= MAX_SAFE_INTEGER.

(** The binary exponent of the last place of [z]: [|z| = m * 2^e] with
    [m < 2^53]. *)
Definition exponent (z : Z) : Z := Z.max 0 (Z.log2 (Z.abs z) - 52).

(** The integers that are binary64 values. *)
Definition is_double (z : Z) : bool :=
  (Z.abs z mod 2 ^ exponent z =? 0) && (exponent z <=? 971).

(** The integer [z] as the library's binary64 datum. *)
Definition to_spec (z : Z) : spec_float :=
  match z / 2 ^ exponent z with
  | Zpos m => S754_finite false m (exponent z)
  | Zneg m => S754_finite true m (exponent z)
  | Z0 => S754_zero false
  end.

(** [a / b] for positive [a] and [b]: the exact quotient rounded to the
    nearest binary64 value, ties to even; the result is [m * 2^e] with
    [2^52 <= m <= 2^53].  The quotient of two such integers neither
    overflows nor is subnormal. *)
Definition scaled (a b e : Z) : Z * Z :=
  if 0 <=? e then (a, b * 2 ^ e) else (a * 2 ^ (- e), b).

Definition round_quotient (a b : Z) : Z * Z :=
  let e1 := Z.log2 a - Z.log2 b - 52 in
  let e := if fst (scaled a b e1) / snd (scaled a b e1) <? 2 ^ 52
           then e1 - 1 else e1 in
  let n := fst (scaled a b e) in
  let d := snd (scaled a b e) in
  let q := n / d in
  let r := n mod d in
  let m := if (d <? 2 * r) || ((d =? 2 * r) && Z.odd q) then q + 1 else q in
  (m, e).

(** [Math.floor] and [Math.ceil] of [m * 2^e]. *)
Definition floor_dyadic (x : Z * Z) : Z :=
  let (m, e) := x in if 0 <=? e then m * 2 ^ e else m / 2 ^ (- e).

Definition ceil_dyadic (x : Z * Z) : Z :=
  let (m, e) := x in if 0 <=? e then m * 2 ^ e else - ((- m) / 2 ^ (- e)).

(** Does the decimal [c] round to the binary64 value [v]?  Both positive. *)
Definition rounds_to (v c : Z) : bool :=
  let e := exponent v in
  let ulp := 2 ^ e in
  let m := v / ulp in
  if c <? v then
    let below := if (m =? 2 ^ 52) && (0 <? e) then ulp / 2 else ulp in
    (2 * (v - c) <? below) || (Z.even m && (2 * (v - c) =? below))
  else
    (2 * (c - v) <? ulp) || (Z.even m && (2 * (c - v) =? ulp)).

(** The decimal with the fewest significant digits that rounds to [v]; of
    two, the closer one, and the even one on a tie. *)
Fixpoint shortest_from (v : Z) (j : nat) : Z :=
  match j with
  | O => v
  | S j' =>
      let p := 10 ^ Z.of_nat j in
      let lo := v / p * p in
      let hi := lo + p in
      let lo_ok := (0 <? lo) && rounds_to v lo in
      let hi_ok := rounds_to v hi in
      if lo_ok && hi_ok then
        if v - lo <? hi - v then lo
        else if hi - v <? v - lo then hi
        else if Z.even (lo / p) then lo else hi
      else if lo_ok then lo
      else if hi_ok then hi
      else shortest_from v j'
  end.

Definition shortest (v : Z) : Z :=
  shortest_from v (S (Z.to_nat (Z.log2 v))).

Fixpoint strip_zeros (digits : jsstring) : jsstring :=
  match digits with
  | [] => []
  | c :: rest =>
      match strip_zeros rest with
      | [] => if (c =? 48)%N then [] else [c]
      | rest' => c :: rest'
      end
  end.

(** [Number::toString] of a positive integral value: the digits of the
    shortest decimal, padded with zeros below [10^21] and in exponent
    notation from there on. *)
Definition toString_pos (v : Z) : jsstring :=
  let c := shortest v in
  if c <? 10 ^ 21 then num c
  else
    let n := Z.of_nat (List.length (num c)) in
    match strip_zeros (num c) with
    | [] => []
    | [d] => d :: str "e+" ++ num (n - 1)
    | d :: more => d :: 46%N :: more ++ str "e+" ++ num (n - 1)
    end.

Definition toString (v : Z) : jsstring :=
  if v =? 0 then str "0"
  else if v <? 0 then 45%N :: toString_pos (- v)
  else toString_pos v.

End Number.


(** ** Number operators used by the script *)

Module JS.
Local Open Scope Z_scope.

(** [a >= b] on Numbers. *)
Definition ge (a b : Z) : bool := b <=? a.

(** [Math.floor(a / b)] for a positive divisor. *)
Definition floor_div (a : Z) (b : positive) : Z :=
  if a =? 0 then 0
  else if 0 <? a then Number.floor_dyadic (Number.round_quotient a (Zpos b))
  else - Number.ceil_dyadic (Number.round_quotient (- a) (Zpos b)).

(** [a % b]: the remainder takes the sign of the dividend, and is exact. *)
Definition rem (a b : Z) : Z := Z.rem a b.
End JS.

(** ** Helpers of [app.js] *)

Definition DATA_URL : jsstring := str "./data/top.json".
Definition ITEM_LINK_BASE : jsstring := str "https://fnbr.co/cosmetics?id=".

Definition formatDays (days : optional Z) : jsstring :=
  match days with
  | null | undefined => str "Unknown"
  | present d =>
      if JS.ge d 365 then
        let years := JS.floor_div d 365 in
        Number.toString years ++ str "y " ++
          Number.toString (JS.rem d 365) ++ str "d ago"
      else if JS.ge d 30 then
        let months := JS.floor_div d 30 in
        Number.toString months ++ str "m " ++
          Number.toString (JS.rem d 30) ++ str "d ago"
      else
        Number.toString d ++ str " days ago"
  end.

(** ** Thrown values *)

Inductive js_error : Type :=
| URIError                      (* encodeURIComponent on an unpaired surrogate *)
| TypeError (msg : jsstring)    (* a property of null; fetch: network failure *)
| SyntaxError (msg : jsstring)  (* e.g. response.json(): malformed body *)
| DOMException (msg : jsstring) (* e.g. an aborted request *).

Definition result (A : Type) : Type := (js_error + A)%type.

(** ** The built-in [encodeURIComponent], as ECMA-262 defines it (Encode
    with no extra unescaped characters) *)

Module URI.
Local Open Scope N_scope.

Definition uriUnescaped : jsstring :=
  str "abcdefghijklmnopqrstuvwxyzABCDEFGHIJKLMNOPQRSTUVWXYZ0123456789_-.!~*'()".

Definition unescaped (c : N) : bool := existsb (N.eqb c) uriUnescaped.

Definition is_leading_surrogate (c : N) : bool :=
  (0xD800 <=? c) && (c <=? 0xDBFF).
Definition is_trailing_surrogate (c : N) : bool :=
  (0xDC00 <=? c) && (c <=? 0xDFFF).

(** UTF16SurrogatePairToCodePoint. *)
Definition pair_to_code_point (lead trail : N) : N :=
  (lead - 0xD800) * 0x400 + (trail - 0xDC00) + 0x10000.

(** The UTF-8 octets of a code point. *)
Definition utf8 (cp : N) : list N :=
  let cont (n : N) := N.lor 0x80 (N.land n 0x3F) in
  if cp <? 0x80 then [cp]
  else if cp <? 0x800 then
    [N.lor 0xC0 (N.shiftr cp 6); cont cp]
  else if cp <? 0x10000 then
    [N.lor 0xE0 (N.shiftr cp 12); cont (N.shiftr cp 6); cont cp]
  else
    [N.lor 0xF0 (N.shiftr cp 18); cont (N.shiftr cp 12);
     cont (N.shiftr cp 6); cont cp].

Definition hex_digit (n : N) : N :=
  if n <? 10 then 48 + n else 55 + n.

(** ["%" + two upper-case hexadecimal digits]. *)
Definition percent (octet : N) : jsstring :=
  [37; hex_digit (N.shiftr octet 4); hex_digit (N.land octet 0xF)].

Definition escape (cp : N) : jsstring := flat_map percent (utf8 cp).

Fixpoint encodeURIComponent (s : jsstring) : result jsstring :=
  match s with
  | [] => inr []
  | c :: rest =>
      if unescaped c then
        match encodeURIComponent rest with
        | inr r => inr (c :: r)
        | inl e => inl e
        end
      else if is_trailing_surrogate c then inl URIError
      else if is_leading_surrogate c then
        match rest with
        | d :: rest' =>
            if is_trailing_surrogate d then
              match encodeURIComponent rest' with
              | inr r => inr (escape (pair_to_code_point c d) ++ r)
              | inl e => inl e
              end
            else inl URIError
        | [] => inl URIError
        end
      else
        match encodeURIComponent rest with
        | inr r => inr (escape c ++ r)
        | inl e => inl e
        end
  end.

(** IsStringWellFormedUnicode: no unpaired surrogate. *)
Fixpoint well_formed (s : jsstring) : bool :=
  match s with
  | [] => true
  | c :: rest =>
      if is_trailing_surrogate c then false
      else if is_leading_surrogate c then
        match rest with
        | d :: rest' => is_trailing_surrogate d && well_formed rest'
        | [] => false
        end
      else well_formed rest
  end.

(** The code units [encodeURIComponent] can emit: the unescaped set, which
    holds the hexadecimal digits, and the percent sign. *)
Definition uri_char (c : N) : Prop := unescaped c = true \/ c = 37.
End URI.

(** ** The fragment parser behind [innerHTML] *)

Module HTML.
Local Open Scope N_scope.

Inductive Node : Type :=
| Text (data : jsstring)
| Elem (tag : jsstring) (attributes : list (jsstring * jsstring))
       (children : list Node).

Fixpoint eqb (s t : jsstring) : bool :=
  match s, t with
  | [], [] => true
  | c :: s', d :: t' => (c =? d) && eqb s' t'
  | _, _ => false
  end.

Fixpoint attribute (name : jsstring) (attrs : list (jsstring * jsstring))
  : option jsstring :=
  match attrs with
  | [] => None
  | (n, v) :: rest => if eqb n name then Some v else attribute name rest
  end.







Inductive tokenizer : Type :=
| Data (text : jsstring)
| TagOpen
| TagName (closing : bool) (name : jsstring)
| BeforeAttributeName (tag : jsstring) (attrs : list (jsstring * jsstring))
| AttributeName (tag : jsstring) (attrs : list (jsstring * jsstring))
                (name : jsstring)
| BeforeAttributeValue (tag : jsstring) (attrs : list (jsstring * jsstring))
                       (name : jsstring)
| AttributeValue (tag : jsstring) (attrs : list (jsstring * jsstring))
                 (name value : jsstring)
| AfterAttributeValue (tag : jsstring) (attrs : list (jsstring * jsstring)).

(** An open element: its tag, its attributes and the children built so far. *)
Definition frame : Type := (jsstring * list (jsstring * jsstring) * list Node)%type.

Record state : Type := {
  tok : tokenizer;
  open_elements : list frame;   (* innermost first *)
  built : list Node             (* children of the context element *)
}.

Definition append_child (n : Node) (stack : list frame) (root : list Node)
  : list frame * list Node :=
  match stack with
  | [] => ([], root ++ [n])
  | (tag, attrs, children) :: outer => ((tag, attrs, children ++ [n]) :: outer, root)
  end.

Definition flush (text : jsstring) (stack : list frame) (root : list Node)
  : list frame * list Node :=
  match text with
  | [] => (stack, root)
  | _ => append_child (Text text) stack root
  end.

Definition lower_alpha (c : N) : bool := (97 <=? c) && (c <=? 122).

(** Characters the model does not read: a character reference, and the two
    characters the parser replaces or drops before tokenizing. *)
Definition unread (c : N) : bool := (c =? 38) || (c =? 0) || (c =? 13).

Definition start_tag (tag : jsstring) (attrs : list (jsstring * jsstring))
           (stack : list frame) (root : list Node) : option state :=
  if eqb tag (str "img") then
    let (stack', root') := append_child (Elem tag attrs []) stack root in
    Some {| tok := Data []; open_elements := stack'; built := root' |}
  else if eqb tag (str "div") then
    Some {| tok := Data []; open_elements := (tag, attrs, []) :: stack;
            built := root |}
  else if eqb tag (str "a") then
    if existsb (fun f => eqb (fst (fst f)) (str "a")) stack then None
    else Some {| tok := Data []; open_elements := (tag, attrs, []) :: stack;
                 built := root |}
  else None.

Definition end_tag (name : jsstring) (stack : list frame) (root : list Node)
  : option state :=
  match stack with
  | (tag, attrs, children) :: outer =>
      if eqb tag name then
        let (stack', root') := append_child (Elem tag attrs children) outer root in
        Some {| tok := Data []; open_elements := stack'; built := root' |}
      else None
  | [] => None
  end.

Definition step (st : state) (c : N) : option state :=
  let stack := open_elements st in
  let root := built st in
  let continue t := Some {| tok := t; open_elements := stack; built := root |} in
  match tok st with
  | Data text =>
      if c =? 60 then
        let (stack', root') := flush text stack root in
        Some {| tok := TagOpen; open_elements := stack'; built := root' |}
      else if unread c then None
      else continue (Data (text ++ [c]))
  | TagOpen =>
      if c =? 47 then continue (TagName true [])
      else if lower_alpha c then continue (TagName false [c])
      else None
  | TagName closing name =>
      if lower_alpha c then continue (TagName closing (name ++ [c]))
      else if c =? 62 then
        match name with
        | [] => None
        | _ => if closing then end_tag name stack root
               else start_tag name [] stack root
        end
      else if (c =? 32) && negb closing then
        match name with
        | [] => None
        | _ => continue (BeforeAttributeName name [])
        end
      else None
  | BeforeAttributeName tag attrs =>
      if lower_alpha c then continue (AttributeName tag attrs [c]) else None
  | AttributeName tag attrs name =>
      if lower_alpha c then continue (AttributeName tag attrs (name ++ [c]))
      else if c =? 61 then
        match attribute name attrs with
        | Some _ => None
        | None => continue (BeforeAttributeValue tag attrs name)
        end
      else None
  | BeforeAttributeValue tag attrs name =>
      if c =? dquote then continue (AttributeValue tag attrs name []) else None
  | AttributeValue tag attrs name value =>
      if c =? dquote then continue (AfterAttributeValue tag (attrs ++ [(name, value)]))
      else if unread c then None
      else continue (AttributeValue tag attrs name (value ++ [c]))
  | AfterAttributeValue tag attrs =>
      if c =? 32 then continue (BeforeAttributeName tag attrs)
      else if c =? 62 then start_tag tag attrs stack root
      else None
  end.

Fixpoint run (st : state) (s : jsstring) : option state :=
  match s with
  | [] => Some st
  | c :: s' =>
      match step st c with
      | Some st' => run st' s'
      | None => None
      end
  end.

(** The children the fragment parser builds from [markup] inside a div, for
    markup in the subset the model reads; [None] outside it. *)
Definition parseFragment (markup : jsstring) : option (list Node) :=
  match run {| tok := Data []; open_elements := []; built := [] |} markup with
  | Some {| tok := Data text; open_elements := []; built := root |} =>
      Some (snd (flush text [] root))
  | _ => None
  end.

End HTML.



(** ** Elements and the card builder *)

(** An element the script creates.  [innerHTML] records the markup last
    assigned to the property, which the script never reads back;
    [childNodes] is what the parser built from it, [None] for markup the
    embedding does not read. *)
Record Element : Type := {
  tagName : jsstring;
  className : jsstring;
  innerHTML : jsstring;
  childNodes : option (list HTML.Node)
}.

(** [document.createElement(tag)]: a fresh, detached, empty element. *)
Definition createElement (tag : jsstring) : Element :=
  {| tagName := tag; className := []; innerHTML := []; childNodes := Some [] |}.

Definition set_className (e : Element) (c : jsstring) : Element :=
  {| tagName := tagName e; className := c; innerHTML := innerHTML e;
     childNodes := childNodes e |}.

Definition set_innerHTML (e : Element) (html : jsstring) : Element :=
  {| tagName := tagName e; className := className e; innerHTML := html;
     childNodes := HTML.parseFragment html |}.




Record ShopItem : Type := {
  id : optional jsstring;
  name : optional jsstring;
  icon : optional jsstring;
  days_since : optional Z
}.

Record ShopFeed : Type := {
  items : optional (list (optional ShopItem));
  updated_utc : optional jsstring
}.

(** [value.key] on an array element: reading a property of [null] or
    [undefined] throws. *)
Definition property (key : string) (value : optional ShopItem)
  : js_error + ShopItem :=
  match value with
  | present item => inr item
  | null =>
      inl (TypeError (str "Cannot read properties of null (reading '"
                        ++ str key ++ str "')"))
  | undefined =>
      inl (TypeError (str "Cannot read properties of undefined (reading '"
                        ++ str key ++ str "')"))
  end.

Definition quoted (s : jsstring) : jsstring := dquote :: s ++ [dquote].

(** The template literal assigned to [card.innerHTML] in [createCard], as a
    function of its four substitutions. *)
Definition card_markup (link icon name days : jsstring) : jsstring :=
  newline :: spaces 8 ++
    str "<a href=" ++ quoted link ++ str " target=" ++ quoted (str "_blank")
      ++ str " rel=" ++ quoted (str "noopener") ++ str ">" ++
  newline :: spaces 12 ++
    str "<img src=" ++ quoted icon ++ str " alt=" ++ quoted name
      ++ str " loading=" ++ quoted (str "lazy") ++ str ">" ++
  newline :: spaces 8 ++ str "</a>" ++
  newline :: spaces 8 ++
    str "<div class=" ++ quoted (str "name") ++ str ">" ++ name ++ str "</div>" ++
  newline :: spaces 8 ++
    str "<div class=" ++ quoted (str "days") ++ str ">" ++ days ++ str "</div>" ++
  newline :: spaces 4.

(** Reading a card back: the value of the [href] attribute of the anchor
    that opens the markup, up to its closing quote. *)
Fixpoint until_quote (s : jsstring) : jsstring :=
  match s with
  | [] => []
  | c :: s' => if (c =? dquote)%N then [] else c :: until_quote s'
  end.

Definition href_of (markup : jsstring) : jsstring :=
  until_quote
    (skipn (List.length (newline :: spaces 8 ++ str "<a href=" ++ [dquote]))
       markup).

Definition createCard (item : optional ShopItem) : result Element :=
  let card := createElement (str "div") in
  let card := set_className card (str "card") in
  match property "id" item with
  | inl e => inl e
  | inr item =>
      let id' := or_default (id item) [] in
      let name' := or_default (name item) (str "Unknown") in
      let icon' := or_default (icon item) [] in
      let days := days_since item in
      match URI.encodeURIComponent id' with
      | inl e => inl e
      | inr escaped =>
          let link := ITEM_LINK_BASE ++ escaped in
          inr (set_innerHTML card
                 (card_markup link icon' name' (formatDays days)))
      end
  end.

(** An array element that builds a card: an object whose id has no unpaired
    surrogate. *)
Definition buildable (element : optional ShopItem) : Prop :=
  exists item,
    element = present item /\
    URI.well_formed (or_default (id item) []) = true.

(** ** The page and the effects of the script *)

Inductive logged : Type :=
| LogMessage (m : jsstring)
| LogError (e : js_error).

Record Page : Type := {
  grid : list Element;       (* children of the element with id "grid" *)
  updatedText : jsstring;    (* textContent of the element with id "updated" *)
  console : list logged      (* arguments of console.error, oldest first *)
}.

(** A computation changes the page and either throws or returns. *)
Definition M (A : Type) : Type := Page -> Page * result A.

Definition ret {A : Type} (a : A) : M A := fun p => (p, inr a).

Definition bind {A B : Type} (m : M A) (k : A -> M B) : M B :=
  fun p =>
    match m p with
    | (p', inr a) => k a p'
    | (p', inl e) => (p', inl e)
    end.

(** A synchronous call, or an awaited promise that has settled. *)
Definition lift {A : Type} (r : result A) : M A := fun p => (p, r).

Definition try_catch {A : Type} (body : M A) (handler : js_error -> M A) : M A :=
  fun p =>
    match body p with
    | (p', inl e) => handler e p'
    | (p', inr a) => (p', inr a)
    end.

Declare Scope js_scope.
Delimit Scope js_scope with js.
Notation "x <- m ;; k" := (bind m (fun x => k))
  (at level 61, m at next level, right associativity) : js_scope.
Notation "m ;; k" := (bind m (fun _ => k))
  (at level 61, right associativity) : js_scope.
Local Open Scope js_scope.

(** Assigning the empty string to [grid.innerHTML] removes every child. *)
Definition grid_clear : M unit :=
  fun p => ({| grid := []; updatedText := updatedText p; console := console p |},
            inr tt).

(** [grid.appendChild(card)] for a freshly created card. *)
Definition grid_appendChild (card : Element) : M unit :=
  fun p => ({| grid := grid p ++ [card]; updatedText := updatedText p;
               console := console p |}, inr tt).

(** [updatedText.textContent = message]. *)
Definition set_textContent (message : jsstring) : M unit :=
  fun p => ({| grid := grid p; updatedText := message; console := console p |},
            inr tt).

Definition console_error (x : logged) : M unit :=
  fun p => ({| grid := grid p; updatedText := updatedText p;
               console := console p ++ [x] |}, inr tt).

(** [array.forEach(f)]. *)
Fixpoint forEach {A : Type} (l : list A) (f : A -> M unit) : M unit :=
  match l with
  | [] => ret tt
  | x :: l' => f x ;; forEach l' f
  end.

Definition showError (message : jsstring) : M unit :=
  set_textContent message ;;
  console_error (LogMessage message).

(** What [fetch] resolves with: the status flag and the outcome of
    [response.json()]. *)
Record Response : Type := {
  ok : bool;
  json : result ShopFeed
}.

Section Loader.

(** The network: the settled outcome of [fetch(url, ...)]. *)
Variable fetch : jsstring -> result Response.

(** [new Date(v).toLocaleString()]: depends on the locale and time zone of
    the browser; it never throws. *)
Variable toLocaleString : optional jsstring -> jsstring.

(** ** Main loader of [app.js]

    The two [await]s are the only suspension points; nothing else in the
    script touches the page, so the run is a function of the page at call
    time and of the outcome of the request. *)
Definition loadData : M unit :=
  try_catch
    (response <- lift (fetch DATA_URL) ;;
     if negb (ok response) then
       showError (str "Failed to load data")
     else
       data <- lift (json response) ;;
       let items' := or_empty (items data) in
       if (List.length items' =? 0)%nat then
         showError (str "No items in shop right now")
       else
         grid_clear ;;
         forEach items' (fun item =>
           card <- lift (createCard item) ;;
           grid_appendChild card) ;;
         if truthy (updated_utc data) then
           set_textContent (str "Updated: " ++ toLocaleString (updated_utc data))
         else
           set_textContent [])
    (fun err =>
       showError (str "Error loading data") ;;
       console_error (LogError err)).

End Loader.

(** ** The older script, [docs/app.js] *)

Module Docs.

(** A template substitution [${v}] applies ToString. *)
Definition to_string (v : optional jsstring) : jsstring :=
  match v with
  | undefined => str "undefined"
  | null => str "null"
  | present s => s
  end.

Definition num_to_string (v : optional Z) : jsstring :=
  match v with
  | undefined => str "undefined"
  | null => str "null"
  | present d => Number.toString d
  end.

Definition markup (icon name days : jsstring) : jsstring :=
  newline :: spaces 16 ++
    str "<img src=" ++ quoted icon ++ str " alt=" ++ quoted name ++ str ">" ++
  newline :: spaces 16 ++
    str "<div class=" ++ quoted (str "name") ++ str ">" ++ name ++ str "</div>" ++
  newline :: spaces 16 ++
    str "<div class=" ++ quoted (str "days") ++ str ">" ++ days
      ++ str " days ago</div>" ++
  newline :: spaces 12.

(** The card the callback builds from an object. *)
Definition card (item : ShopItem) : Element :=
  let card := createElement (str "div") in
  let card := set_className card (str "card") in
  set_innerHTML card
    (markup (to_string (icon item)) (to_string (name item))
       (num_to_string (days_since item))).

(** The body of the [forEach] callback up to [appendChild]: the first
    property read, [item.icon], throws on a [null] element. *)
Definition card_of (item : optional ShopItem) : result Element :=
  match property "icon" item with
  | inl e => inl e
  | inr item => inr (card item)
  end.

Section Chain.
Variable fetch : jsstring -> result Response.
Variable toLocaleString : optional jsstring -> jsstring.

(** [fetch(...).then(res => res.json()).then(data => ...).catch(...)]. *)
Definition load : M unit :=
  try_catch
    (res <- lift (fetch (str "./data/top.json")) ;;
     data <- lift (json res) ;;
     match items data with
     | present items' =>
         forEach items' (fun item =>
           card <- lift (card_of item) ;;
           grid_appendChild card) ;;
         set_textContent
           (str "Updated: " ++ toLocaleString (updated_utc data))
     | undefined =>
         lift (inl (TypeError
           (str "Cannot read properties of undefined (reading 'forEach')")))
     | null =>
         lift (inl (TypeError
           (str "Cannot read properties of null (reading 'forEach')")))
     end)
    (fun err =>
       set_textContent (str "Failed to load data") ;;
       console_error (LogError err)).
End Chain.

End Docs.

(** ** Concrete feeds and pages, used to run the definitions *)

Module Sample.

Definition renegade : ShopItem :=
  {| id := present (str "CID_028_Athena");
     name := present (str "Renegade Raider");
     icon := present (str "https://image.fnbr.co/outfit/renegade/icon.png");
     days_since := present 400%Z |}.

Definition unnamed : ShopItem :=
  {| id := present (str "Pickaxe Lockjaw");
     name := null;
     icon := undefined;
     days_since := present 40%Z |}.

(** The id is the unpaired surrogate U+D800, as the JSON text "\ud800"
    parses. *)
Definition unpaired : ShopItem :=
  {| id := present [0xD800%N];
     name := present (str "Recon Expert");
     icon := undefined;
     days_since := present 5%Z |}.




Definition feed (l : list (optional ShopItem)) : ShopFeed :=
  {| items := present l;
     updated_utc := present (str "2024-05-01T00:00:00Z") |}.

(** A network that settles every request with the same outcome. *)
Definition serve (outcome : result Response) : jsstring -> result Response :=
  fun _ => outcome.

Definition responds (status : bool) (body : result ShopFeed) : result Response :=
  inr {| ok := status; json := body |}.

(** A stand-in for the locale formatting: the ISO text itself. *)
Definition iso (v : optional jsstring) : jsstring :=
  match v with
  | present s => s
  | _ => str "Invalid Date"
  end.

(** A page that still shows an earlier render. *)
Definition stale : Page :=
  {| grid := [set_className (createElement (str "div")) (str "card")];
     updatedText := str "Updated: yesterday";
     console := [] |}.

End Sample.

(** * Properties *)
(** ** Binary64 arithmetic on integral Numbers

    On the safe integers the rounded quotient has the integer part of the
    exact one and a Number is printed with all its digits; beyond them
    neither holds. *)

Module NumberFacts.
Import Number.
Local Open Scope Z_scope.

Lemma num_negative (d : Z) : d < 0 -> num d = str "-" ++ num (- d).
Proof.
  destruct d as [| p | p]; intros Hd; try lia.
  reflexivity.
Qed.

Ltac powers :=
  change (2 ^ 53) with 9007199254740992 in *;
  change (2 ^ 52) with 4503599627370496 in *.

Lemma exponent_safe (v : Z) : 0 < v < 2 ^ 53 -> exponent v = 0.
Proof.
  intros [Hpos Hv]. unfold exponent. rewrite Z.abs_eq by lia.
  apply (Z.log2_lt_pow2 v 53 Hpos) in Hv. lia.
Qed.

(** Below [2^53] the neighbours of an integer are the next integers, so no
    other integer rounds to it. *)
Lemma rounds_to_safe (v c : Z) :
  0 < v < 2 ^ 53 -> rounds_to v c = true -> c = v.
Proof.
  intros Hv. unfold rounds_to. rewrite (exponent_safe Hv).
  change (2 ^ 0) with 1. rewrite Z.div_1_r.
  change (0 <? 0) with false. rewrite andb_false_r.
  destruct (Z.ltb_spec c v) as [Hlt | Hge].
  - rewrite orb_true_iff, andb_true_iff, Z.ltb_lt, Z.eqb_eq. lia.
  - rewrite orb_true_iff, andb_true_iff, Z.ltb_lt, Z.eqb_eq. lia.
Qed.

Lemma shortest_from_safe (v : Z) (j : nat) :
  0 < v < 2 ^ 53 -> shortest_from v j = v.
Proof.
  intros Hv. induction j as [| j IH]; [reflexivity |].
  cbn [shortest_from].
  assert (Hp : 0 < 10 ^ Z.of_nat (S j)) by (apply Z.pow_pos_nonneg; lia).
  remember (10 ^ Z.of_nat (S j)) as p eqn:Ep.
  remember (v / p * p) as lo eqn:El. clear Ep El.
  assert (Hsafe : forall c, rounds_to v c = true -> c = v)
    by (intros c; now apply rounds_to_safe).
  destruct (rounds_to v lo) eqn:Hlo; destruct (rounds_to v (lo + p)) eqn:Hhi;
    try apply Hsafe in Hlo; try apply Hsafe in Hhi;
    rewrite ?andb_false_r, ?andb_true_r; cbn [andb].
  - exfalso. lia.
  - destruct (0 <? lo); [exact Hlo | exact IH].
  - destruct (0 <? lo); cbn [andb]; exact Hhi.
  - destruct (0 <? lo); cbn [andb]; exact IH.
Qed.

(** On the safe integers [Number::toString] is the decimal numeral. *)
Lemma toString_safe (z : Z) : safe z -> toString z = num z.
Proof.
  unfold safe, MAX_SAFE_INTEGER, toString. intros Hz.
  assert (Hpos : forall v, 0 < v < 2 ^ 53 -> toString_pos v = num v).
  { intros v Hv. unfold toString_pos, shortest.
    rewrite (shortest_from_safe _ Hv).
    destruct (Z.ltb_spec v (10 ^ 21)) as [_ | Hbig]; [reflexivity |].
    assert (2 ^ 53 < 10 ^ 21) by reflexivity. lia. }
  destruct (Z.eqb_spec z 0) as [-> | Hnz]; [reflexivity |].
  destruct (Z.ltb_spec z 0) as [Hneg | Hnonneg].
  - rewrite Hpos by lia. now rewrite (num_negative Hneg).
  - apply Hpos. lia.
Qed.

(** The arithmetic core: with a mantissa of at least [2^52], rounding the
    scaled quotient up or down does not move its integer part. *)
Lemma floor_round_exact (a b N m : Z) :
  0 < b -> b <= a < 2 ^ 53 -> 0 < N -> 2 ^ 52 <= (a * N) / b ->
  m = (a * N) / b \/
  (m = (a * N) / b + 1 /\ b <= 2 * ((a * N) mod b)) ->
  m / N = a / b.
Proof.
  intros Hb Ha HN Hq Hm. powers.
  pose proof (Z.div_mod a b ltac:(lia)) as Ea.
  pose proof (Z.mod_pos_bound a b Hb) as Ba.
  pose proof (Z.div_mod (a * N) b ltac:(lia)) as En.
  pose proof (Z.mod_pos_bound (a * N) b Hb) as Bn.
  set (k := a / b) in *. set (s := a mod b) in *.
  set (q := (a * N) / b) in *. set (u := (a * N) mod b) in *.
  assert (Hk : 0 <= k) by (apply Z.div_pos; lia).
  assert (Hlow : k * N <= q) by nia.
  assert (Hhigh : q < (k + 1) * N) by nia.
  symmetry. apply Z.div_unique with (r := m - k * N).
  - left. destruct Hm as [-> | [-> Hup]]; [lia |].
    split; [lia |].
    assert (q + 1 < (k + 1) * N \/ q + 1 = (k + 1) * N) as [? | Hedge] by lia;
      [lia | exfalso].
    (* rounding up onto the next integer would need a < 2^53 to fail *)
    assert (b * q + u = a * N) by lia.
    assert (2 * N <= b) by nia.
    assert (9007199254740992 * N <= a * N) by nia.
    nia.
  - lia.
Qed.

(** [Math.floor(a / b)] is the integer quotient as long as the dividend is at
    most [2^53 - 1] and not below the divisor. *)
Lemma floor_div_safe (a : Z) (b : positive) :
  Zpos b <= a <= MAX_SAFE_INTEGER -> JS.floor_div a b = a / Zpos b.
Proof.
  unfold MAX_SAFE_INTEGER. intros Ha.
  assert (Hb : 0 < Zpos b) by lia.
  assert (Ha53 : a < 2 ^ 53) by (change (2 ^ 53 - 1) with 9007199254740991 in Ha;
                                  change (2 ^ 53) with 9007199254740992; lia).
  unfold JS.floor_div.
  destruct (Z.eqb_spec a 0) as [-> | _]; [lia |].
  destruct (Z.ltb_spec 0 a) as [Hpos | ?]; [| lia].
  pose proof (Z.log2_spec a Hpos) as [La _].
  pose proof (Z.log2_spec (Zpos b) Hb) as [_ Lb].
  pose proof (Z.log2_nonneg (Zpos b)) as Lb0.
  pose proof (Z.log2_nonneg a) as La0.
  assert (La53 : Z.log2 a < 53) by (apply Z.log2_lt_pow2; assumption).
  unfold round_quotient.
  set (e1 := Z.log2 a - Z.log2 (Zpos b) - 52).
  assert (He1 : e1 <= 0) by (unfold e1; lia).
  (* whichever exponent is chosen, the mantissa is at least 2^52 *)
  assert (Hnorm : 2 ^ 52 <= (a * 2 ^ (1 - e1)) / Zpos b).
  { apply Z.div_le_lower_bound; [exact Hb |].
    assert (E : 2 ^ Z.log2 a * 2 ^ (1 - e1) = 2 ^ 52 * 2 ^ Z.succ (Z.log2 (Zpos b))).
    { rewrite <- !Z.pow_add_r by lia. f_equal. unfold e1. lia. }
    assert (0 < 2 ^ (1 - e1)) by (apply Z.pow_pos_nonneg; lia).
    assert (0 < 2 ^ 52) by reflexivity.
    nia. }
  destruct (Z.ltb_spec (fst (scaled a (Zpos b) e1) / snd (scaled a (Zpos b) e1))
              (2 ^ 52)) as [Hsmall | Hbig].
  - (* one more bit is needed *)
    unfold scaled. destruct (Z.leb_spec 0 (e1 - 1)) as [? | Hneg]; [lia |].
    cbn [fst snd floor_dyadic]. destruct (Z.leb_spec 0 (e1 - 1)); [lia |].
    replace (- (e1 - 1)) with (1 - e1) by lia.
    apply floor_round_exact;
      [exact Hb | split; [lia | exact Ha53] | apply Z.pow_pos_nonneg; lia
       | exact Hnorm |].
    match goal with
    | |- context [if ?c then _ else _] => destruct c eqn:Hc
    end; [right | now left].
    split; [reflexivity |].
    rewrite orb_true_iff, andb_true_iff, Z.ltb_lt, Z.eqb_eq in Hc. lia.
  - unfold scaled in Hbig |- *.
    destruct (Z.leb_spec 0 e1) as [Hzero | Hneg].
    + (* the quotient is already an integer of 53 bits: the divisor is 1 *)
      assert (e1 = 0) by lia. subst e1.
      replace (Z.log2 a - Z.log2 (Zpos b) - 52) with 0 in * by lia.
      cbn [fst snd floor_dyadic] in Hbig |- *.
      change (2 ^ 0) with 1 in *. rewrite Z.mul_1_r in *.
      assert (Hone : Zpos b = 1).
      { destruct (Z.eq_dec (Zpos b) 1) as [? | Hne]; [assumption | exfalso].
        assert (a / Zpos b < 2 ^ 52).
        { apply Z.div_lt_upper_bound; [exact Hb |].
          change (2 ^ 52) with 4503599627370496.
          change (2 ^ 53) with 9007199254740992 in Ha53. lia. }
        lia. }
      rewrite Hone in *. rewrite Z.mod_1_r, Z.div_1_r.
      cbn. now rewrite Z.div_1_r.
    + cbn [fst snd floor_dyadic] in Hbig |- *.
      destruct (Z.leb_spec 0 e1); [lia |].
      apply floor_round_exact;
        [exact Hb | split; [lia | exact Ha53] | apply Z.pow_pos_nonneg; lia
         | exact Hbig |].
      match goal with
      | |- context [if ?c then _ else _] => destruct c eqn:Hc
      end; [right | now left].
      split; [reflexivity |].
      rewrite orb_true_iff, andb_true_iff, Z.ltb_lt, Z.eqb_eq in Hc. lia.
Qed.

(** The quotient agrees with the library's binary64 division. *)
Example round_quotient_agrees :
  forallb
    (fun a =>
       match SFdiv 53 1024 (to_spec a) (to_spec 365), round_quotient a 365 with
       | S754_finite false m e, (m', e') => (Zpos m =? m') && (e =? e')
       | _, _ => false
       end)
    [365; 400; 729; 730; 36500; 2 ^ 53 - 1; 2 ^ 53; 25684591624847724;
     10 ^ 21; 2 ^ 70] = true.
Proof. vm_compute. reflexivity. Qed.

(** Beyond [2^53] the rounded quotient can reach the next integer. *)
Example floor_div_rounds_up :
  is_double 25684591624847724 = true /\
  JS.floor_div 25684591624847724 365 = 70368744177665 /\
  25684591624847724 / 365 = 70368744177664.
Proof. vm_compute. repeat split. Qed.

(** Printing: shortest digits, zeros up to [10^21], exponents beyond. *)
Example toString_samples :
  toString 0 = str "0" /\
  toString (-5) = str "-5" /\
  toString (2 ^ 53) = str "9007199254740992" /\
  toString (2 ^ 60) = str "1152921504606847000" /\
  toString (10 ^ 21) = str "1e+21" /\
  toString (- 10 ^ 21) = str "-1e+21" /\
  toString (2 ^ 70) = str "1.1805916207174113e+21".
Proof. vm_compute. repeat split. Qed.

End NumberFacts.

(** ** The day-count formatter *)

Section FormatDays.
Local Open Scope Z_scope.

Lemma safe_bounds (z : Z) :
  Number.safe z <-> - 9007199254740991 <= z <= 9007199254740991.
Proof. reflexivity. Qed.

Lemma formatDays_years (d : Z) :
  365 <= d <= Number.MAX_SAFE_INTEGER ->
  formatDays (present d) =
    num (d / 365) ++ str "y " ++ num (d mod 365) ++ str "d ago".
Proof.
  intros Hd. unfold formatDays, JS.ge, JS.rem.
  destruct (Z.leb_spec 365 d) as [_ | Hlt]; [| lia].
  rewrite NumberFacts.floor_div_safe by lia.
  rewrite Z.rem_mod_nonneg by lia.
  pose proof (Z.mod_pos_bound d 365 ltac:(lia)).
  assert (0 <= d / 365 <= d).
  { split; [apply Z.div_pos; lia | apply Z.div_le_upper_bound; lia]. }
  rewrite !NumberFacts.toString_safe; [reflexivity | |];
    apply safe_bounds; change Number.MAX_SAFE_INTEGER with 9007199254740991 in Hd;
    lia.
Qed.

Lemma formatDays_months (d : Z) :
  30 <= d < 365 ->
  formatDays (present d) =
    num (d / 30) ++ str "m " ++ num (d mod 30) ++ str "d ago".
Proof.
  intros Hd. unfold formatDays, JS.ge, JS.rem.
  destruct (Z.leb_spec 365 d) as [Hge | _]; [lia |].
  destruct (Z.leb_spec 30 d) as [_ | Hlt]; [| lia].
  rewrite NumberFacts.floor_div_safe
    by (change Number.MAX_SAFE_INTEGER with 9007199254740991; lia).
  rewrite Z.rem_mod_nonneg by lia.
  pose proof (Z.mod_pos_bound d 30 ltac:(lia)).
  assert (0 <= d / 30 <= d).
  { split; [apply Z.div_pos; lia | apply Z.div_le_upper_bound; lia]. }
  rewrite !NumberFacts.toString_safe; [reflexivity | |]; apply safe_bounds; lia.
Qed.

Lemma formatDays_days (d : Z) :
  d < 30 ->
  formatDays (present d) = Number.toString d ++ str " days ago".
Proof.
  intros Hd. unfold formatDays, JS.ge.
  destruct (Z.leb_spec 365 d) as [Hge | _]; [lia |].
  destruct (Z.leb_spec 30 d) as [Hge | _]; [lia |].
  reflexivity.
Qed.

Lemma formatDays_days_safe (d : Z) :
  - Number.MAX_SAFE_INTEGER <= d < 30 ->
  formatDays (present d) = num d ++ str " days ago".
Proof.
  intros Hd. rewrite formatDays_days by lia.
  rewrite NumberFacts.toString_safe; [reflexivity |].
  apply safe_bounds.
  change Number.MAX_SAFE_INTEGER with 9007199254740991 in Hd. lia.
Qed.

(** From [10^21] on in magnitude the number is printed in exponent
    notation. *)
Example formatDays_exponent :
  formatDays (present (- 10 ^ 21)) = str "-1e+21 days ago".
Proof. vm_compute. reflexivity. Qed.

Lemma str_app (s t : string) : str (s ++ t) = str s ++ str t.
Proof.
  unfold str. induction s as [| a s IH]; simpl; [reflexivity |].
  now rewrite IH.
Qed.




(** Whatever the integer, one of the three numeric rules applies. *)
Lemma formatDays_cases (d : Z) :
  (365 <= d /\
   formatDays (present d) =
     Number.toString (JS.floor_div d 365) ++ str "y " ++
       Number.toString (JS.rem d 365) ++ str "d ago") \/
  (30 <= d < 365 /\
   formatDays (present d) =
     Number.toString (JS.floor_div d 30) ++ str "m " ++
       Number.toString (JS.rem d 30) ++ str "d ago") \/
  (d < 30 /\
   formatDays (present d) = Number.toString d ++ str " days ago").
Proof.
  unfold formatDays, JS.ge.
  destruct (Z.leb_spec 365 d) as [Hy | Hy];
    [| destruct (Z.leb_spec 30 d) as [Hm | Hm]].
  - left. split; [exact Hy | reflexivity].
  - right; left. split; [lia | reflexivity].
  - right; right. split; [exact Hm | reflexivity].
Qed.

(** Every label of an integer ends in " ago". *)
Lemma formatDays_suffix (d : Z) :
  exists body, formatDays (present d) = body ++ str " ago".
Proof.
  assert (Hcut : forall a b sep : jsstring,
            a ++ sep ++ b ++ str "d ago" =
            (a ++ sep ++ b ++ str "d") ++ str " ago").
  { intros a b sep. change (str "d ago") with (str "d" ++ str " ago").
    now rewrite <- !app_assoc. }
  destruct (formatDays_cases d) as [[_ ->] | [[_ ->] | [_ ->]]].
  - eexists. apply Hcut.
  - eexists. apply Hcut.
  - exists (Number.toString d ++ str " days").
    change (str " days ago") with (str " days" ++ str " ago").
    now rewrite <- app_assoc.
Qed.

(** C9: the formatter is total on the integers: every integer, negative
    ones included, falls under exactly one of the three numeric rules and
    yields a string, which ends in " ago"; no rule rejects an input and no
    bound is checked. *)
Theorem formatDays_total (d : Z) :
  (exists body, formatDays (present d) = body ++ str " ago") /\
  ((365 <= d /\
    formatDays (present d) =
      Number.toString (JS.floor_div d 365) ++ str "y " ++
        Number.toString (JS.rem d 365) ++ str "d ago") \/
   (30 <= d < 365 /\
    formatDays (present d) =
      Number.toString (JS.floor_div d 30) ++ str "m " ++
        Number.toString (JS.rem d 30) ++ str "d ago") \/
   (d < 30 /\
    formatDays (present d) = Number.toString d ++ str " days ago")).
Proof.
  split; [apply formatDays_suffix | apply formatDays_cases].
Qed.



End FormatDays.
(** ** Decimal numerals *)

Section Numerals.
Local Open Scope Z_scope.

Lemma string_of_uint_chars (u : Decimal.uint) :
  Forall num_char (str (NilEmpty.string_of_uint u)).
Proof.
  induction u; cbn; constructor; try assumption; right; cbv; split; congruence.
Qed.

Lemma string_of_uint_zero_chars (u : Decimal.uint) :
  Forall num_char (str (NilZero.string_of_uint u)).
Proof.
  destruct u; try apply string_of_uint_chars.
  cbn. constructor; [right; cbv; split; congruence | constructor].
Qed.

Lemma num_chars (z : Z) : Forall num_char (num z).
Proof.
  unfold num. destruct (Z.to_int z) as [u | u]; cbn [NilZero.string_of_int].
  - apply string_of_uint_zero_chars.
  - change (str (String "-" (NilZero.string_of_uint u)))
      with (45%N :: str (NilZero.string_of_uint u)).
    constructor; [now left | apply string_of_uint_zero_chars].
Qed.

Lemma to_int_not_nil (z : Z) :
  Z.to_int z <> Decimal.Pos Decimal.Nil /\ Z.to_int z <> Decimal.Neg Decimal.Nil.
Proof.
  destruct z as [| p | p]; cbn; split; try discriminate;
    intros H; inversion H as [H']; now apply Unsigned.to_uint_nonnil in H'.
Qed.

Lemma str_inj (s t : string) : str s = str t -> s = t.
Proof.
  unfold str. intros H.
  rewrite <- (string_of_list_ascii_of_string s),
          <- (string_of_list_ascii_of_string t).
  f_equal. revert H.
  generalize (list_ascii_of_string s) (list_ascii_of_string t).
  induction l as [| a l IH]; intros [| b l'] H; try discriminate;
    [reflexivity |].
  cbn in H. inversion H as [[Hab Hl]].
  f_equal; [| now apply IH].
  rewrite <- (ascii_N_embedding a), <- (ascii_N_embedding b). now rewrite Hab.
Qed.

(** Different integers print differently. *)
Lemma num_inj (a b : Z) : num a = num b -> a = b.
Proof.
  unfold num. intros H. apply str_inj in H.
  apply (f_equal NilZero.int_of_string) in H.
  destruct (to_int_not_nil a) as [Ha1 Ha2], (to_int_not_nil b) as [Hb1 Hb2].
  rewrite !NilZero.isi in H by assumption.
  inversion H as [H']. now apply DecimalZ.to_int_inj.
Qed.

Lemma num_nonempty (z : Z) : num z <> [].
Proof.
  intros H. change (@nil N) with (str EmptyString) in H.
  apply str_inj in H.
  apply (f_equal NilZero.int_of_string) in H.
  destruct (to_int_not_nil z) as [H1 H2].
  rewrite NilZero.isi in H by assumption. discriminate.
Qed.

End Numerals.

(** ** [encodeURIComponent]: when it throws and what it returns *)

Module URIFacts.
Import URI.
Local Open Scope N_scope.

(** The encoder on ASCII text, on U+00E9, on U+20AC, on the surrogate pair
    of U+1F600, and on unpaired surrogates. *)
Example encodeURIComponent_ascii :
  encodeURIComponent (str "CID 029&x=/_~") = inr (str "CID%20029%26x%3D%2F_~").
Proof. vm_compute. reflexivity. Qed.

Example encodeURIComponent_unicode :
  encodeURIComponent [0xE9; 0x20AC; 0xD83D; 0xDE00] =
  inr (str "%C3%A9%E2%82%AC%F0%9F%98%80").
Proof. vm_compute. reflexivity. Qed.

Example encodeURIComponent_unpaired :
  encodeURIComponent [0xD83D] = inl URIError /\
  encodeURIComponent [0xDE00; 0x41] = inl URIError /\
  encodeURIComponent [0x41; 0xD83D; 0x41] = inl URIError.
Proof. repeat split. Qed.

Lemma unescaped_ascii (c : N) : unescaped c = true -> c < 128.
Proof.
  unfold unescaped. rewrite existsb_exists. intros (x & Hin & Heq).
  apply N.eqb_eq in Heq. subst x.
  unfold uriUnescaped in Hin. simpl in Hin.
  repeat (destruct Hin as [Hin | Hin]; [subst c; reflexivity |]).
  contradiction.
Qed.

Lemma unescaped_not_surrogate (c : N) :
  unescaped c = true ->
  is_trailing_surrogate c = false /\ is_leading_surrogate c = false.
Proof.
  intros H. apply unescaped_ascii in H.
  unfold is_trailing_surrogate, is_leading_surrogate.
  split; apply andb_false_iff; left; apply N.leb_gt; lia.
Qed.

Lemma encodeURIComponent_cases (s : jsstring) :
  (well_formed s = true /\ exists r, encodeURIComponent s = inr r) \/
  (well_formed s = false /\ encodeURIComponent s = inl URIError).
Proof.
  remember (List.length s) as n eqn:Hn.
  revert s Hn. induction n as [n IH] using lt_wf_ind. intros s Hn.
  destruct s as [| c rest]; [left; split; [reflexivity | now exists []] |].
  simpl in Hn.
  assert (Hrest : forall t, (List.length t <= List.length rest)%nat ->
            (well_formed t = true /\ exists r, encodeURIComponent t = inr r) \/
            (well_formed t = false /\ encodeURIComponent t = inl URIError)).
  { intros t Ht. apply (IH (List.length t)); [lia | reflexivity]. }
  cbn [well_formed encodeURIComponent].
  destruct (unescaped c) eqn:Hu.
  - destruct (unescaped_not_surrogate c Hu) as [-> ->].
    destruct (Hrest rest (le_n _)) as [[Hw [r Hr]] | [Hw Hr]]; rewrite Hw, Hr.
    + left. split; [reflexivity | now eexists].
    + right. split; reflexivity.
  - destruct (is_trailing_surrogate c); [right; split; reflexivity |].
    destruct (is_leading_surrogate c).
    + destruct rest as [| d rest']; [right; split; reflexivity |].
      destruct (is_trailing_surrogate d); [| right; split; reflexivity].
      destruct (Hrest rest' ltac:(simpl; lia)) as [[Hw [r Hr]] | [Hw Hr]];
        rewrite Hw, Hr.
      * left. split; [reflexivity | now eexists].
      * right. split; reflexivity.
    + destruct (Hrest rest (le_n _)) as [[Hw [r Hr]] | [Hw Hr]]; rewrite Hw, Hr.
      * left. split; [reflexivity | now eexists].
      * right. split; reflexivity.
Qed.

Lemma encodeURIComponent_defined (s : jsstring) :
  well_formed s = true -> exists r, encodeURIComponent s = inr r.
Proof.
  intros Hw. destruct (encodeURIComponent_cases s) as [[_ H] | [H _]].
  - exact H.
  - congruence.
Qed.


Lemma encodeURIComponent_inr_well_formed (s r : jsstring) :
  encodeURIComponent s = inr r -> well_formed s = true.
Proof.
  intros Hr. destruct (encodeURIComponent_cases s) as [[H _] | [_ H]].
  - exact H.
  - congruence.
Qed.

(** *** The output alphabet *)

Lemma lor_lt_256 (a b : N) : a < 256 -> b < 256 -> N.lor a b < 256.
Proof.
  intros Ha Hb.
  destruct (N.eq_dec (N.lor a b) 0) as [-> | Hnz]; [reflexivity |].
  change 256 with (2 ^ 8). apply N.log2_lt_pow2; [lia |].
  rewrite N.log2_lor.
  assert (Hlog : forall x, x < 256 -> N.log2 x < 8).
  { intros x Hx. destruct (N.eq_dec x 0) as [-> | Hx0]; [reflexivity |].
    apply N.log2_lt_pow2; [lia | exact Hx]. }
  apply N.max_lub_lt; auto.
Qed.

Lemma continuation_lt_256 (n : N) : N.lor 0x80 (N.land n 0x3F) < 256.
Proof.
  apply lor_lt_256; [reflexivity |].
  pose proof (N.land_le_r n 0x3F). lia.
Qed.

Lemma utf8_octets (cp : N) :
  cp < 0x110000 -> Forall (fun o => o < 256) (utf8 cp).
Proof.
  intros Hcp. unfold utf8.
  destruct (N.ltb_spec cp 0x80); [repeat constructor; lia |].
  destruct (N.ltb_spec cp 0x800).
  { repeat constructor; [| apply continuation_lt_256].
    apply lor_lt_256; [reflexivity |].
    rewrite N.shiftr_div_pow2. change (2 ^ 6) with 64.
    apply N.Div0.div_lt_upper_bound; lia. }
  destruct (N.ltb_spec cp 0x10000).
  { repeat constructor; try apply continuation_lt_256.
    apply lor_lt_256; [reflexivity |].
    rewrite N.shiftr_div_pow2. change (2 ^ 12) with 4096.
    apply N.Div0.div_lt_upper_bound; lia. }
  repeat constructor; try apply continuation_lt_256.
  apply lor_lt_256; [reflexivity |].
  rewrite N.shiftr_div_pow2. change (2 ^ 18) with 262144.
  apply N.Div0.div_lt_upper_bound; lia.
Qed.

Lemma hex_digit_unescaped (n : N) : n < 16 -> unescaped (hex_digit n) = true.
Proof.
  intros Hn.
  assert (H : In n [0;1;2;3;4;5;6;7;8;9;10;11;12;13;14;15]).
  { simpl. lia. }
  simpl in H.
  repeat (destruct H as [H | H]; [subst n; reflexivity |]).
  contradiction.
Qed.

Lemma percent_chars (o : N) : o < 256 -> Forall uri_char (percent o).
Proof.
  intros Ho. unfold percent.
  apply Forall_cons; [| apply Forall_cons; [| apply Forall_cons; [| constructor]]].
  - now right.
  - left. apply hex_digit_unescaped.
    rewrite N.shiftr_div_pow2. change (2 ^ 4) with 16.
    apply N.Div0.div_lt_upper_bound; lia.
  - left. apply hex_digit_unescaped.
    pose proof (N.land_le_r o 0xF). lia.
Qed.

Lemma escape_chars (cp : N) : cp < 0x110000 -> Forall uri_char (escape cp).
Proof.
  intros Hcp. unfold escape.
  induction (utf8_octets Hcp) as [| o os Ho _ IH]; cbn [flat_map].
  - constructor.
  - apply Forall_app. split; [now apply percent_chars | exact IH].
Qed.

Lemma pair_to_code_point_bound (c d : N) :
  is_leading_surrogate c = true -> is_trailing_surrogate d = true ->
  pair_to_code_point c d < 0x110000.
Proof.
  unfold is_leading_surrogate, is_trailing_surrogate, pair_to_code_point.
  rewrite !andb_true_iff, !N.leb_le. lia.
Qed.

(** Whatever [encodeURIComponent] returns is made of unescaped characters
    and percent signs only. *)
Lemma encodeURIComponent_chars (s r : jsstring) :
  code_units s ->
  encodeURIComponent s = inr r -> Forall uri_char r.
Proof.
  unfold code_units.
  remember (List.length s) as n eqn:Hn.
  revert s r Hn. induction n as [n IH] using lt_wf_ind. intros s r Hn Hs Hr.
  destruct s as [| c rest]; [inversion Hr; constructor |].
  simpl in Hn. inversion Hs as [| c' rest' Hc Hrest]; subst c' rest'.
  cbv beta in Hc. cbn [encodeURIComponent] in Hr.
  destruct (unescaped c) eqn:Hu.
  - destruct (encodeURIComponent rest) as [e | r'] eqn:Hr'; inversion Hr.
    constructor; [now left |].
    apply (IH (List.length rest) ltac:(lia) rest r' eq_refl Hrest Hr').
  - destruct (is_trailing_surrogate c); [discriminate |].
    destruct (is_leading_surrogate c) eqn:Hlead.
    + destruct rest as [| d rest2]; [discriminate |].
      destruct (is_trailing_surrogate d) eqn:Htrail; [| discriminate].
      destruct (encodeURIComponent rest2) as [e | r'] eqn:Hr'; inversion Hr.
      inversion Hrest as [| d' rest2' Hd Hrest2]; subst d' rest2'.
      apply Forall_app. split.
      * apply escape_chars. now apply pair_to_code_point_bound.
      * apply (IH (List.length rest2) ltac:(simpl in Hn; lia) rest2 r' eq_refl
                 Hrest2 Hr').
    + destruct (encodeURIComponent rest) as [e | r'] eqn:Hr'; inversion Hr.
      apply Forall_app. split.
      * apply escape_chars. lia.
      * apply (IH (List.length rest) ltac:(lia) rest r' eq_refl Hrest Hr').
Qed.

Lemma code_units_check (s : jsstring) :
  forallb (fun c => c <? 0x10000) s = true -> code_units s.
Proof.
  rewrite forallb_forall. intros H. apply Forall_forall.
  intros c Hc. apply N.ltb_lt. now apply H.
Qed.

Lemma uri_char_not_quote (c : N) : uri_char c -> c <> dquote.
Proof.
  intros [Hu | ->] Heq; [| discriminate]. subst c. discriminate.
Qed.

End URIFacts.


(** ** The fragment parser on the markup of a card *)

Module HTMLFacts.
Import HTML.
Local Open Scope N_scope.







End HTMLFacts.

Section CardMarkup.




End CardMarkup.

(** ** Strings that are plain *)

Section Plain.









End Plain.
(** ** The card builder *)

Section CardBuilder.

Lemma until_quote_app (link rest : jsstring) :
  Forall (fun c => c <> dquote) link ->
  until_quote (link ++ dquote :: rest) = link.
Proof.
  induction 1 as [| c link Hc _ IH]; simpl.
  - reflexivity.
  - destruct (N.eqb_spec c dquote) as [Heq | _]; [contradiction |].
    now rewrite IH.
Qed.

Lemma href_of_card_markup (link icon' name' days : jsstring) :
  Forall (fun c => c <> dquote) link ->
  href_of (card_markup link icon' name' days) = link.
Proof.
  intros Hlink. unfold href_of, card_markup, quoted.
  cbn [spaces repeat str list_ascii_of_string map app List.length skipn].
  rewrite <- app_assoc. cbn [app].
  now apply until_quote_app.
Qed.

Lemma link_base_chars : Forall (fun c => c <> dquote) ITEM_LINK_BASE.
Proof.
  unfold ITEM_LINK_BASE. cbn. repeat (constructor; [discriminate |]).
  constructor.
Qed.


(** An element that is [null] or [undefined] makes the builder throw at its
    first property read, [item.id]. *)
Lemma createCard_not_object :
  createCard null =
    inl (TypeError (str "Cannot read properties of null (reading 'id')")) /\
  createCard undefined =
    inl (TypeError (str "Cannot read properties of undefined (reading 'id')")).
Proof. split; reflexivity. Qed.


Lemma createCard_returns (item : ShopItem) :
  URI.well_formed (or_default (id item) []) = true ->
  exists card : Element, createCard (present item) = inr card.
Proof.
  intros Hw. unfold createCard. cbn [property].
  destruct (URIFacts.encodeURIComponent_defined _ Hw) as [escaped ->].
  now eexists.
Qed.

Lemma createCard_buildable (element : optional ShopItem) :
  buildable element -> exists card : Element, createCard element = inr card.
Proof. intros (item & -> & Hw). now apply createCard_returns. Qed.


Lemma createCard_inr_inv (item : ShopItem) (card : Element) :
  createCard (present item) = inr card ->
  exists escaped : jsstring,
    URI.encodeURIComponent (or_default (id item) []) = inr escaped /\
    innerHTML card =
      card_markup (ITEM_LINK_BASE ++ escaped) (or_default (icon item) [])
        (or_default (name item) (str "Unknown"))
        (formatDays (days_since item)) /\
    childNodes card = HTML.parseFragment (innerHTML card) /\
    tagName card = str "div" /\ className card = str "card".
Proof.
  unfold createCard. cbn [property].
  destruct (URI.encodeURIComponent (or_default (id item) [])) as [e | escaped];
    intros H; inversion H.
  exists escaped. now repeat split.
Qed.

Lemma createCard_object (element : optional ShopItem) (card : Element) :
  createCard element = inr card -> exists item, element = present item.
Proof.
  destruct element as [| | item]; try discriminate. now exists item.
Qed.


End CardBuilder.


(** ** The loop over the items

    Both scripts build a card per element and append it; the loop is the
    same whichever builder is used. *)

Module Loop.
Section Loop.

Variable build : optional ShopItem -> result Element.

Local Notation "'built'" :=
  (Forall2 (fun item card => build item = inr card)).
Local Notation "'render'" :=
  (fun item : optional ShopItem =>
     (card <- lift (build item) ;; grid_appendChild card)%js).

Lemma forEach_built (l : list (optional ShopItem)) (cards : list Element) :
  built l cards ->
  forall p,
    forEach l render p =
      ({| grid := grid p ++ cards; updatedText := updatedText p;
          console := console p |}, inr tt).
Proof.
  induction 1 as [| item card l cards Hcard _ IH]; intros p.
  - simpl. unfold ret. rewrite app_nil_r. now destruct p.
  - cbn [forEach]. unfold bind at 1. unfold bind at 1, lift.
    rewrite Hcard. unfold grid_appendChild at 1.
    rewrite IH. cbn [grid updatedText console].
    now rewrite <- app_assoc.
Qed.

Lemma forEach_throws (before after : list (optional ShopItem))
      (item : optional ShopItem) (cards : list Element) (e : js_error) :
  built before cards ->
  build item = inl e ->
  forall p,
    forEach (before ++ item :: after) render p =
      ({| grid := grid p ++ cards; updatedText := updatedText p;
          console := console p |}, inl e).
Proof.
  intros Hb He. induction Hb as [| item' card l cards Hcard _ IH]; intros p.
  - cbn [app forEach]. unfold bind at 1. unfold bind at 1, lift.
    rewrite He. rewrite app_nil_r. now destruct p.
  - cbn [app forEach]. unfold bind at 1. unfold bind at 1, lift.
    rewrite Hcard. unfold grid_appendChild at 1.
    rewrite IH. cbn [grid updatedText console].
    now rewrite <- app_assoc.
Qed.

(** Either every card of a list builds, or there is a first element whose
    card does not. *)
Lemma built_or_throws (l : list (optional ShopItem)) :
  (exists cards, built l cards) \/
  (exists before item after cards e,
     l = before ++ item :: after /\ built before cards /\
     build item = inl e).
Proof.
  induction l as [| item l IH].
  - left. exists []. constructor.
  - destruct (build item) as [e | card] eqn:Hcard.
    + right. exists [], item, l, [], e. repeat split; [constructor | exact Hcard].
    + destruct IH as [[cards Hb] |
                      (before & item' & after & cards & e & -> & Hb & He)].
      * left. exists (card :: cards). now constructor.
      * right. exists (item :: before), item', after, (card :: cards), e.
        repeat split; [now constructor | exact He].
Qed.

(** The cards built from a list are determined by the list. *)
Lemma built_unique (l : list (optional ShopItem)) (cards cards' : list Element) :
  built l cards -> built l cards' -> cards = cards'.
Proof.
  intros Hb. revert cards'.
  induction Hb as [| item card l cards Hcard _ IH]; intros cards' Hb';
    inversion Hb' as [| ? card' ? cards0 Hcard' Hrest]; subst.
  - reflexivity.
  - rewrite Hcard in Hcard'. injection Hcard' as <-. f_equal. now apply IH.
Qed.

End Loop.
End Loop.

(** ** The loader *)

Section LoadData.

Variable fetch : jsstring -> result Response.
Variable toLocaleString : optional jsstring -> jsstring.

Local Notation "'built'" :=
  (Forall2 (fun item card => createCard item = inr card)).
Local Notation "'render'" :=
  (fun item : optional ShopItem =>
     (card <- lift (createCard item) ;; grid_appendChild card)%js).

Lemma built_of_buildable (l : list (optional ShopItem)) :
  Forall buildable l -> exists cards, built l cards.
Proof.
  induction 1 as [| item l Hitem _ [cards IH]].
  - exists []. constructor.
  - destruct (createCard_buildable Hitem) as [card Hcard].
    exists (card :: cards). now constructor.
Qed.


Lemma nonempty_length {A : Type} (l : list A) :
  l <> [] -> (List.length l =? 0)%nat = false.
Proof. destruct l; [congruence | reflexivity]. Qed.

(** *** The four ways a run can go *)

Lemma run_not_ok (r : Response) (p : Page) :
  fetch DATA_URL = inr r -> ok r = false ->
  loadData fetch toLocaleString p =
    ({| grid := grid p; updatedText := str "Failed to load data";
        console := console p ++ [LogMessage (str "Failed to load data")] |},
     inr tt).
Proof.
  intros Hf Hok. unfold loadData, try_catch, bind, lift.
  rewrite Hf, Hok. reflexivity.
Qed.

Lemma run_empty (r : Response) (data : ShopFeed) (p : Page) :
  fetch DATA_URL = inr r -> ok r = true -> json r = inr data ->
  or_empty (items data) = [] ->
  loadData fetch toLocaleString p =
    ({| grid := grid p; updatedText := str "No items in shop right now";
        console :=
          console p ++ [LogMessage (str "No items in shop right now")] |},
     inr tt).
Proof.
  intros Hf Hok Hj Hi. unfold loadData, try_catch, bind, lift.
  rewrite Hf, Hok. cbn [negb]. rewrite Hj, Hi. reflexivity.
Qed.

Lemma run_success (r : Response) (data : ShopFeed) (l : list (optional ShopItem))
      (cards : list Element) (p : Page) :
  fetch DATA_URL = inr r -> ok r = true -> json r = inr data ->
  items data = present l -> l <> [] -> built l cards ->
  loadData fetch toLocaleString p =
    ({| grid := cards;
        updatedText :=
          if truthy (updated_utc data)
          then str "Updated: " ++ toLocaleString (updated_utc data)
          else [];
        console := console p |},
     inr tt).
Proof.
  intros Hf Hok Hj Hi Hne Hb. unfold loadData, try_catch.
  unfold bind at 1. unfold lift at 1. rewrite Hf, Hok. cbn [negb].
  unfold bind at 1. unfold lift at 1. rewrite Hj, Hi. cbn [or_empty].
  rewrite (nonempty_length Hne).
  unfold bind at 1. unfold grid_clear at 1.
  unfold bind at 1. rewrite (@Loop.forEach_built createCard _ _ Hb).
  cbn [grid updatedText console app].
  now destruct (truthy (updated_utc data)).
Qed.

Lemma run_fetch_rejects (e : js_error) (p : Page) :
  fetch DATA_URL = inl e ->
  loadData fetch toLocaleString p =
    ({| grid := grid p; updatedText := str "Error loading data";
        console := console p ++
          [LogMessage (str "Error loading data"); LogError e] |},
     inr tt).
Proof.
  intros Hf. unfold loadData, try_catch, bind, lift. rewrite Hf.
  unfold showError, bind, set_textContent, console_error.
  cbn [grid updatedText console]. now rewrite <- app_assoc.
Qed.

Lemma run_json_rejects (r : Response) (e : js_error) (p : Page) :
  fetch DATA_URL = inr r -> ok r = true -> json r = inl e ->
  loadData fetch toLocaleString p =
    ({| grid := grid p; updatedText := str "Error loading data";
        console := console p ++
          [LogMessage (str "Error loading data"); LogError e] |},
     inr tt).
Proof.
  intros Hf Hok Hj. unfold loadData, try_catch, bind, lift.
  rewrite Hf, Hok. cbn [negb]. rewrite Hj.
  unfold showError, bind, set_textContent, console_error.
  cbn [grid updatedText console]. now rewrite <- app_assoc.
Qed.

Lemma run_render_throws (r : Response) (data : ShopFeed)
      (before after : list (optional ShopItem)) (item : optional ShopItem)
      (cards : list Element) (e : js_error) (p : Page) :
  fetch DATA_URL = inr r -> ok r = true -> json r = inr data ->
  items data = present (before ++ item :: after) ->
  built before cards -> createCard item = inl e ->
  loadData fetch toLocaleString p =
    ({| grid := cards; updatedText := str "Error loading data";
        console := console p ++
          [LogMessage (str "Error loading data"); LogError e] |},
     inr tt).
Proof.
  intros Hf Hok Hj Hi Hb He. unfold loadData, try_catch.
  unfold bind at 1. unfold lift at 1. rewrite Hf, Hok. cbn [negb].
  unfold bind at 1. unfold lift at 1. rewrite Hj, Hi. cbn [or_empty].
  rewrite nonempty_length by (now destruct before).
  unfold bind at 1. unfold grid_clear at 1.
  unfold bind at 1. rewrite (@Loop.forEach_throws createCard before after item cards e Hb He).
  unfold showError, bind, set_textContent, console_error.
  cbn [grid updatedText console app]. now rewrite <- app_assoc.
Qed.

(** *** The claims about the loader *)


(** C4: for every response with a non-OK status the run sets the status
    text to "Failed to load data", logs that message and returns; the grid
    is as before, so no card comes from this load. *)
Theorem loadData_not_ok (r : Response) (p : Page) :
  fetch DATA_URL = inr r -> ok r = false ->
  let (p', outcome) := loadData fetch toLocaleString p in
  updatedText p' = str "Failed to load data" /\
  grid p' = grid p /\
  console p' = console p ++ [LogMessage (str "Failed to load data")] /\
  outcome = inr tt.
Proof.
  intros Hf Hok. rewrite (run_not_ok p Hf Hok).
  repeat split.
Qed.

(** C5: for every feed, fetched with an OK status, whose item list is
    empty or absent, the run sets the status text to
    "No items in shop right now", logs that message and returns; the grid
    is as before, so no card is produced. *)
Theorem loadData_no_items (r : Response) (data : ShopFeed) (p : Page) :
  fetch DATA_URL = inr r -> ok r = true -> json r = inr data ->
  items data = undefined \/ items data = null \/ items data = present [] ->
  let (p', outcome) := loadData fetch toLocaleString p in
  updatedText p' = str "No items in shop right now" /\
  grid p' = grid p /\
  console p' = console p ++ [LogMessage (str "No items in shop right now")] /\
  outcome = inr tt.
Proof.
  intros Hf Hok Hj Hi.
  assert (Hempty : or_empty (items data) = [])
    by (destruct Hi as [-> | [-> | ->]]; reflexivity).
  rewrite (run_empty p Hf Hok Hj Hempty).
  repeat split.
Qed.

(** C6: whenever an error [e] is thrown by the fetch (network failure), by
    the parsing of the body (malformed JSON) or by the building of a card
    during rendering, the run catches it: it returns normally, the status
    text is "Error loading data", and the console receives that message
    followed by the error [e] itself. *)
Theorem loadData_catches (e : js_error) (p : Page) :
  fetch DATA_URL = inl e \/
  (exists r, fetch DATA_URL = inr r /\ ok r = true /\ json r = inl e) \/
  (exists r data before item after cards,
     fetch DATA_URL = inr r /\ ok r = true /\ json r = inr data /\
     items data = present (before ++ item :: after) /\
     Forall2 (fun item card => createCard item = inr card) before cards /\
     createCard item = inl e) ->
  snd (loadData fetch toLocaleString p) = inr tt /\
  updatedText (fst (loadData fetch toLocaleString p)) =
    str "Error loading data" /\
  console (fst (loadData fetch toLocaleString p)) =
    console p ++ [LogMessage (str "Error loading data"); LogError e].
Proof.
  intros [Hf | [(r & Hf & Hok & Hj) |
                (r & data & before & item & after & cards &
                 Hf & Hok & Hj & Hi & Hb & He)]].
  - rewrite (run_fetch_rejects p Hf). now repeat split.
  - rewrite (run_json_rejects p Hf Hok Hj). now repeat split.
  - rewrite (@run_render_throws r data before after item cards e p Hf Hok Hj Hi Hb He). now repeat split.
Qed.

(** C7: on a non-OK status, on an empty or absent item list, and on an
    error thrown by the fetch or by the parsing of the body, the run leaves
    the children of the grid as they were; only the status text (and the
    console) change.  Once rendering has begun the old children are gone:
    if a card then fails to build, the grid holds the cards built before
    the failure. *)
Theorem loadData_failure_frame (p : Page) :
  ((exists r, fetch DATA_URL = inr r /\ ok r = false) \/
   (exists r data, fetch DATA_URL = inr r /\ ok r = true /\
      json r = inr data /\ or_empty (items data) = []) \/
   (exists e, fetch DATA_URL = inl e) \/
   (exists r e, fetch DATA_URL = inr r /\ ok r = true /\ json r = inl e) ->
   grid (fst (loadData fetch toLocaleString p)) = grid p /\
   snd (loadData fetch toLocaleString p) = inr tt) /\
  (forall r data before item after cards e,
     fetch DATA_URL = inr r -> ok r = true -> json r = inr data ->
     items data = present (before ++ item :: after) ->
     Forall2 (fun item card => createCard item = inr card) before cards ->
     createCard item = inl e ->
     grid (fst (loadData fetch toLocaleString p)) = cards).
Proof.
  split.
  - intros [(r & Hf & Hok) | [(r & data & Hf & Hok & Hj & Hi) |
             [(e & Hf) | (r & e & Hf & Hok & Hj)]]].
    + rewrite (run_not_ok p Hf Hok). now split.
    + rewrite (run_empty p Hf Hok Hj Hi). now split.
    + rewrite (run_fetch_rejects p Hf). now split.
    + rewrite (run_json_rejects p Hf Hok Hj). now split.
  - intros r data before item after cards e Hf Hok Hj Hi Hb He.
    now rewrite (@run_render_throws r data before after item cards e p Hf Hok Hj Hi Hb He).
Qed.

(** C8: on a successful load the status text is "Updated: " followed by
    the locale-formatted timestamp when the feed carries a (non-empty)
    [updated_utc], and the empty string when [updated_utc] is absent. *)
Theorem loadData_timestamp (r : Response) (data : ShopFeed)
        (l : list (optional ShopItem)) (p : Page) :
  fetch DATA_URL = inr r -> ok r = true -> json r = inr data ->
  items data = present l -> l <> [] ->
  Forall buildable l ->
  (forall s, updated_utc data = present s -> s <> [] ->
     updatedText (fst (loadData fetch toLocaleString p)) =
       str "Updated: " ++ toLocaleString (present s)) /\
  (updated_utc data = undefined \/ updated_utc data = null ->
     updatedText (fst (loadData fetch toLocaleString p)) = []).
Proof.
  intros Hf Hok Hj Hi Hne Hwf.
  destruct (built_of_buildable Hwf) as [cards Hb].
  rewrite (run_success p Hf Hok Hj Hi Hne Hb). cbn [fst updatedText].
  split.
  - intros s Hs Hnz. rewrite Hs. destruct s; [congruence | reflexivity].
  - intros [-> | ->]; reflexivity.
Qed.

(** An empty [updated_utc] is falsy and blanks the status text as an
    absent one does. *)
Lemma loadData_empty_timestamp (r : Response) (data : ShopFeed)
      (l : list (optional ShopItem)) (cards : list Element) (p : Page) :
  fetch DATA_URL = inr r -> ok r = true -> json r = inr data ->
  items data = present l -> l <> [] ->
  Forall2 (fun item card => createCard item = inr card) l cards ->
  updated_utc data = present [] ->
  updatedText (fst (loadData fetch toLocaleString p)) = [].
Proof.
  intros Hf Hok Hj Hi Hne Hb Hu.
  rewrite (run_success p Hf Hok Hj Hi Hne Hb). cbn [fst updatedText].
  now rewrite Hu.
Qed.

End LoadData.

(** *** Runs on concrete feeds *)



Lemma loadData_null_run :
  loadData
    (Sample.serve
       (Sample.responds true (inr (Sample.feed [null; present Sample.renegade]))))
    Sample.iso Sample.stale =
  ({| grid := []; updatedText := str "Error loading data";
      console :=
        [LogMessage (str "Error loading data");
         LogError
           (TypeError (str "Cannot read properties of null (reading 'id')"))] |},
   inr tt).
Proof. vm_compute. reflexivity. Qed.

Lemma loadData_unpaired_run :
  loadData
    (Sample.serve
       (Sample.responds true (inr (Sample.feed [present Sample.unpaired]))))
    Sample.iso Sample.stale =
  ({| grid := []; updatedText := str "Error loading data";
      console := [LogMessage (str "Error loading data"); LogError URIError] |},
   inr tt).
Proof. vm_compute. reflexivity. Qed.

Lemma loadData_not_ok_witness :
  let (p', outcome) :=
    loadData
      (Sample.serve
         (Sample.responds false (inr (Sample.feed [present Sample.renegade]))))
      Sample.iso Sample.stale in
  updatedText p' = str "Failed to load data" /\
  grid p' = grid Sample.stale /\
  console p' = [LogMessage (str "Failed to load data")] /\
  outcome = inr tt.
Proof.
  exact (@loadData_not_ok
           (Sample.serve
              (Sample.responds false
                 (inr (Sample.feed [present Sample.renegade]))))
           Sample.iso _ Sample.stale eq_refl eq_refl).
Defined.

Lemma loadData_no_items_witness :
  let (p', outcome) :=
    loadData
      (Sample.serve
         (Sample.responds true
            (inr {| items := undefined; updated_utc := undefined |})))
      Sample.iso Sample.stale in
  updatedText p' = str "No items in shop right now" /\
  grid p' = grid Sample.stale /\
  console p' = [LogMessage (str "No items in shop right now")] /\
  outcome = inr tt.
Proof.
  exact (@loadData_no_items
           (Sample.serve
              (Sample.responds true
                 (inr {| items := undefined; updated_utc := undefined |})))
           Sample.iso _ _ Sample.stale eq_refl eq_refl eq_refl
           (or_introl eq_refl)).
Defined.

Lemma loadData_catches_witness :
  updatedText
    (fst (loadData
            (Sample.serve
               (Sample.responds true
                  (inr (Sample.feed
                          [present Sample.renegade; present Sample.unpaired;
                           present Sample.unnamed]))))
            Sample.iso Sample.stale)) = str "Error loading data" /\
  updatedText
    (fst (loadData
            (Sample.serve
               (Sample.responds true (inl (SyntaxError (str "Unexpected token")))))
            Sample.iso Sample.stale)) = str "Error loading data" /\
  updatedText
    (fst (loadData
            (Sample.serve (inl (TypeError (str "Failed to fetch"))))
            Sample.iso Sample.stale)) = str "Error loading data".
Proof.
  split; [| split].
  - refine (proj1 (proj2 (@loadData_catches _ Sample.iso URIError Sample.stale _))).
    right; right.
    destruct (createCard_returns Sample.renegade) as [card Hcard];
      [vm_compute; reflexivity |].
    eexists _, _, [present Sample.renegade], (present Sample.unpaired),
      [present Sample.unnamed], [card].
    split; [reflexivity |]. split; [reflexivity |]. split; [reflexivity |].
    split; [reflexivity |].
    split; [constructor; [exact Hcard | constructor] |].
    vm_compute. reflexivity.
  - refine (proj1 (proj2 (@loadData_catches _ Sample.iso
                            (SyntaxError (str "Unexpected token"))
                            Sample.stale _))).
    right; left. eexists. repeat split; reflexivity.
  - refine (proj1 (proj2 (@loadData_catches _ Sample.iso
                            (TypeError (str "Failed to fetch"))
                            Sample.stale _))).
    left. reflexivity.
Defined.

Lemma loadData_failure_frame_witness :
  grid (fst (loadData
               (Sample.serve
                  (Sample.responds false
                     (inr (Sample.feed [present Sample.renegade]))))
               Sample.iso Sample.stale)) = grid Sample.stale /\
  grid (fst (loadData
               (Sample.serve
                  (Sample.responds true
                     (inr (Sample.feed [present Sample.unpaired]))))
               Sample.iso Sample.stale)) = [].
Proof.
  split.
  - refine (proj1 (proj1 (@loadData_failure_frame _ Sample.iso Sample.stale) _)).
    left. eexists. split; reflexivity.
  - refine (proj2 (@loadData_failure_frame
                     (Sample.serve
                        (Sample.responds true
                           (inr (Sample.feed [present Sample.unpaired]))))
                     Sample.iso Sample.stale)
              _ _ [] (present Sample.unpaired) [] [] URIError
              eq_refl eq_refl eq_refl eq_refl (Forall2_nil _) _).
    vm_compute. reflexivity.
Defined.

Lemma loadData_timestamp_witness :
  updatedText
    (fst (loadData
            (Sample.serve
               (Sample.responds true
                  (inr (Sample.feed [present Sample.renegade]))))
            Sample.iso Sample.stale)) = str "Updated: 2024-05-01T00:00:00Z" /\
  updatedText
    (fst (loadData
            (Sample.serve
               (Sample.responds true
                  (inr {| items := present [present Sample.renegade];
                          updated_utc := null |})))
            Sample.iso Sample.stale)) = [].
Proof.
  assert (Hb : Forall buildable [present Sample.renegade]).
  { constructor; [| constructor].
    eexists. split; [reflexivity | vm_compute; reflexivity]. }
  split.
  - exact (proj1 (@loadData_timestamp
                    (Sample.serve
                       (Sample.responds true
                          (inr (Sample.feed [present Sample.renegade]))))
                    Sample.iso _ _ [present Sample.renegade] Sample.stale
                    eq_refl eq_refl eq_refl eq_refl ltac:(discriminate) Hb)
             (str "2024-05-01T00:00:00Z") eq_refl ltac:(discriminate)).
  - exact (proj2 (@loadData_timestamp
                    (Sample.serve
                       (Sample.responds true
                          (inr {| items := present [present Sample.renegade];
                                  updated_utc := null |})))
                    Sample.iso _ _ [present Sample.renegade] Sample.stale
                    eq_refl eq_refl eq_refl eq_refl ltac:(discriminate) Hb)
             (or_intror eq_refl)).
Defined.
(** * Further properties of the code *)

(** ** What a day label tells about the day count *)

Section DayLabels.
Local Open Scope Z_scope.

(** A text that starts with a number is cut in one way only at the first
    character that is not part of the number. *)
Lemma number_prefix_unique (a b x y : jsstring) (c c' : N) :
  Forall num_char a -> Forall num_char b -> ~ num_char c -> ~ num_char c' ->
  a ++ c :: x = b ++ c' :: y -> a = b /\ c = c' /\ x = y.
Proof.
  intros Ha. revert b. induction Ha as [| n a Hn _ IH]; intros b Hb Hc Hc' H.
  - destruct b as [| m b]; cbn in H; inversion H; subst.
    + now repeat split.
    + inversion Hb; subst. contradiction.
  - destruct b as [| m b]; cbn in H; inversion H; subst.
    + contradiction.
    + inversion Hb; subst.
      destruct (IH b) as (-> & -> & ->); auto.
Qed.

Lemma not_num_char (c : N) : (58 <= c \/ c = 32)%N -> ~ num_char c.
Proof. unfold num_char. lia. Qed.

(** Every label of a safe integer is a number, a letter that names the
    rule, and a rest. *)
Lemma formatDays_shape (d : Z) :
  Number.safe d ->
  (365 <= d /\
   formatDays (present d) =
     num (d / 365) ++ 121%N :: 32%N :: num (d mod 365) ++ 100%N :: str " ago") \/
  (30 <= d < 365 /\
   formatDays (present d) =
     num (d / 30) ++ 109%N :: 32%N :: num (d mod 30) ++ 100%N :: str " ago") \/
  (d < 30 /\ formatDays (present d) = num d ++ 32%N :: str "days ago").
Proof.
  intros [Hlow Hhigh].
  destruct (Z_lt_le_dec d 30) as [Hs | Hm];
    [| destruct (Z_lt_le_dec d 365) as [Hm' | Hy]].
  - right; right. split; [assumption |].
    rewrite formatDays_days_safe by (split; assumption). reflexivity.
  - right; left. split; [lia |].
    rewrite formatDays_months by lia. reflexivity.
  - left. split; [assumption |].
    rewrite formatDays_years by (split; assumption). reflexivity.
Qed.

(** X1: for day counts up to [2^53 - 1], in the years rule the printed
    numbers [y] and [r] satisfy [d = 365 y + r] with [y >= 1] and
    [0 <= r < 365]; in the months rule [d = 30 m + r] with [1 <= m <= 12]
    and [0 <= r < 30] (twelve months are printed for 360 to 364 days). *)
Theorem formatDays_decomposition (d : Z) :
  (365 <= d <= Number.MAX_SAFE_INTEGER ->
   exists y r : Z,
     formatDays (present d) = num y ++ str "y " ++ num r ++ str "d ago" /\
     1 <= y /\ 0 <= r < 365 /\ d = 365 * y + r) /\
  (30 <= d < 365 ->
   exists m r : Z,
     formatDays (present d) = num m ++ str "m " ++ num r ++ str "d ago" /\
     1 <= m <= 12 /\ 0 <= r < 30 /\ d = 30 * m + r).
Proof.
  split; intros Hd.
  - exists (d / 365), (d mod 365).
    split; [now apply formatDays_years |].
    pose proof (Z.div_mod d 365 ltac:(lia)).
    pose proof (Z.mod_pos_bound d 365 ltac:(lia)).
    assert (1 <= d / 365) by (apply Z.div_le_lower_bound; lia).
    lia.
  - exists (d / 30), (d mod 30).
    split; [now apply formatDays_months |].
    pose proof (Z.div_mod d 30 ltac:(lia)).
    pose proof (Z.mod_pos_bound d 30 ltac:(lia)).
    assert (1 <= d / 30) by (apply Z.div_le_lower_bound; lia).
    assert (d / 30 < 13) by (apply Z.div_lt_upper_bound; lia).
    lia.
Qed.

(** X2: among the safe integers the label determines the day count: two
    different day counts between [-(2^53 - 1)] and [2^53 - 1] never get the
    same label; and no integer at all gets the label "Unknown" of an absent
    value. *)
Theorem formatDays_injective :
  (forall d1 d2 : Z,
     Number.safe d1 -> Number.safe d2 ->
     formatDays (present d1) = formatDays (present d2) -> d1 = d2) /\
  (forall d : Z, formatDays (present d) <> str "Unknown").
Proof.
  split.
  - intros d1 d2 Hs1 Hs2 H.
    pose proof (Z.div_mod d1 365 ltac:(lia)) as E1.
    pose proof (Z.div_mod d2 365 ltac:(lia)) as E2.
    pose proof (Z.div_mod d1 30 ltac:(lia)) as F1.
    pose proof (Z.div_mod d2 30 ltac:(lia)) as F2.
    destruct (formatDays_shape Hs1) as [[H1 S1] | [[H1 S1] | [H1 S1]]];
    destruct (formatDays_shape Hs2) as [[H2 S2] | [[H2 S2] | [H2 S2]]];
      rewrite S1, S2 in H;
      apply number_prefix_unique in H;
      try apply num_chars; try (apply not_num_char; lia);
      destruct H as (Ha & Hc & Ht); try discriminate Hc;
      apply num_inj in Ha.
    + inversion Ht as [Hr].
      apply number_prefix_unique in Hr;
        try apply num_chars; try (apply not_num_char; lia).
      destruct Hr as (Hr & _). apply num_inj in Hr. lia.
    + inversion Ht as [Hr].
      apply number_prefix_unique in Hr;
        try apply num_chars; try (apply not_num_char; lia).
      destruct Hr as (Hr & _). apply num_inj in Hr. lia.
    + exact Ha.
  - intros d H. destruct (formatDays_suffix d) as [body Hbody].
    rewrite Hbody in H. apply (f_equal (@rev N)) in H.
    rewrite rev_app_distr in H. discriminate H.
Qed.

End DayLabels.

Lemma formatDays_decomposition_witness :
  (365 <= 730 <= Number.MAX_SAFE_INTEGER /\
   formatDays (present 730) = str "2y 0d ago")%Z /\
  (30 <= 364 < 365 /\ formatDays (present 364) = str "12m 4d ago")%Z.
Proof.
  split.
  - split; [split; [lia | discriminate] |].
    destruct (proj1 (formatDays_decomposition 730)
                ltac:(split; [lia | discriminate]))
      as (y & r & H & _). vm_compute. reflexivity.
  - split; [lia |].
    destruct (proj2 (formatDays_decomposition 364) ltac:(lia))
      as (m & r & H & _). vm_compute. reflexivity.
Defined.

Lemma formatDays_injective_witness :
  Number.safe 400 /\ Number.safe (365 + 35) /\
  formatDays (present 400%Z) = formatDays (present (365 + 35)%Z) /\
  400%Z = (365 + 35)%Z.
Proof.
  assert (H1 : Number.safe 400) by (split; discriminate).
  assert (H2 : Number.safe (365 + 35)) by (split; discriminate).
  split; [exact H1 |]. split; [exact H2 |].
  split; [reflexivity |].
  exact (proj1 formatDays_injective 400%Z (365 + 35)%Z H1 H2 eq_refl).
Defined.

(** ** When the card builder fails and what its link is made of *)

Section CardLinks.

Lemma encodeURIComponent_unescaped (s : jsstring) :
  Forall (fun c => URI.unescaped c = true) s ->
  URI.encodeURIComponent s = inr s.
Proof.
  induction 1 as [| c s Hc _ IH]; cbn [URI.encodeURIComponent].
  - reflexivity.
  - now rewrite Hc, IH.
Qed.


(** X4: whatever the id, the href of a built card consists of unreserved
    characters and of [% : / ? =] only; it holds no double quote, angle
    bracket, ampersand, space or line break, so the id cannot close the
    attribute or open a tag. *)
Theorem createCard_link_alphabet (item : ShopItem) (card : Element) :
  code_units (or_default (id item) []) ->
  createCard (present item) = inr card ->
  Forall (fun c => (URI.unescaped c = true \/ In c (str "%:/?=")) /\
                   ~ In c (dquote :: newline :: str "<>& "))
    (href_of (innerHTML card)).
Proof.
  intros Hunits Hcard.
  destruct (@createCard_inr_inv _ _ Hcard) as (escaped & He & Hhtml & _).
  pose proof (URIFacts.encodeURIComponent_chars Hunits He) as Hchars.
  assert (Hpos : Forall (fun c => URI.unescaped c = true \/ In c (str "%:/?="))
                   (ITEM_LINK_BASE ++ escaped)).
  { apply Forall_app. split.
    - unfold ITEM_LINK_BASE. cbn.
      repeat (apply Forall_cons;
              [first [left; reflexivity | right; cbn; tauto] |]).
      constructor.
    - eapply Forall_impl; [| exact Hchars].
      intros c [Hu | ->]; [now left | right; cbn; tauto]. }
  rewrite Hhtml, href_of_card_markup.
  - eapply Forall_impl; [| exact Hpos].
    intros c Hc. split; [exact Hc |].
    intros Hbad. cbn in Hbad.
    destruct Hc as [Hu | Hin].
    + repeat (destruct Hbad as [<- | Hbad]; [vm_compute in Hu; discriminate |]).
      contradiction.
    + cbn in Hin.
      repeat (destruct Hin as [<- | Hin];
              [repeat (destruct Hbad as [Hbad | Hbad]; [discriminate |]);
               contradiction |]).
      contradiction.
  - eapply Forall_impl; [| exact Hpos].
    intros c [Hu | Hin] ->; [vm_compute in Hu; discriminate |].
    cbn in Hin.
    repeat (destruct Hin as [Hin | Hin]; [discriminate |]). contradiction.
Qed.

(** X5: an id made of unreserved characters only (letters, digits and
    [_-.!~*'()]) is never escaped: the card links to the base address
    followed by the id itself. *)
Theorem createCard_plain_id (item : ShopItem) :
  Forall (fun c => URI.unescaped c = true) (or_default (id item) []) ->
  exists card : Element,
    createCard (present item) = inr card /\
    href_of (innerHTML card) = ITEM_LINK_BASE ++ or_default (id item) [].
Proof.
  intros Hplain. unfold createCard. cbn [property].
  rewrite (encodeURIComponent_unescaped Hplain).
  eexists. split; [reflexivity |].
  cbn [innerHTML set_innerHTML]. apply href_of_card_markup.
  apply Forall_app. split; [exact link_base_chars |].
  eapply Forall_impl; [| exact Hplain].
  intros c Hu. apply URIFacts.uri_char_not_quote. now left.
Qed.

End CardLinks.


Lemma createCard_link_alphabet_witness :
  exists card,
    createCard (present Sample.unnamed) = inr card /\
    Forall (fun c => c <> dquote) (href_of (innerHTML card)).
Proof.
  destruct (createCard_returns Sample.unnamed) as [card Hcard];
    [vm_compute; reflexivity |].
  exists card. split; [exact Hcard |].
  assert (Hunits : code_units (or_default (id Sample.unnamed) []))
    by (apply URIFacts.code_units_check; vm_compute; reflexivity).
  eapply Forall_impl;
    [| exact (createCard_link_alphabet Sample.unnamed Hunits Hcard)].
  intros c [_ Hbad] ->. apply Hbad. now left.
Defined.

Lemma createCard_plain_id_witness :
  exists card,
    createCard (present Sample.renegade) = inr card /\
    href_of (innerHTML card) =
      str "https://fnbr.co/cosmetics?id=CID_028_Athena".
Proof.
  destruct (createCard_plain_id Sample.renegade) as (card & Hcard & Hhref).
  - cbn. repeat (constructor; [reflexivity |]). constructor.
  - exists card. split; [exact Hcard | exact Hhref].
Defined.

(** ** Different ids give different links *)

Module URIInjective.
Import URI.
Local Open Scope N_scope.

Lemma lor_disjoint (a x k : N) :
  N.land a (N.ones k) = 0 -> x < 2 ^ k -> N.lor a x = a + x.
Proof.
  intros Ha Hx.
  assert (Hland : N.land a x = 0).
  { rewrite <- (N.mod_small x (2 ^ k)) by exact Hx.
    rewrite <- N.land_ones, (N.land_comm x), N.land_assoc, Ha.
    apply N.land_0_l. }
  now rewrite N.add_nocarry_lxor, N.lxor_lor.
Qed.

Lemma continuation_value (n : N) :
  N.lor 0x80 (N.land n 0x3F) = 0x80 + n mod 64.
Proof.
  change 0x3F with (N.ones 6). rewrite N.land_ones.
  apply (@lor_disjoint 0x80 _ 6); [reflexivity |].
  apply N.mod_lt. discriminate.
Qed.

(** The octets of a code point, in arithmetic. *)
Lemma utf8_value (cp : N) :
  cp < 0x110000 ->
  utf8 cp =
    if cp <? 0x80 then [cp]
    else if cp <? 0x800 then [0xC0 + cp / 64; 0x80 + cp mod 64]
    else if cp <? 0x10000 then
      [0xE0 + cp / 4096; 0x80 + (cp / 64) mod 64; 0x80 + cp mod 64]
    else
      [0xF0 + cp / 262144; 0x80 + (cp / 4096) mod 64;
       0x80 + (cp / 64) mod 64; 0x80 + cp mod 64].
Proof.
  intros Hcp. unfold utf8. rewrite !continuation_value, !N.shiftr_div_pow2.
  change (2 ^ 6) with 64. change (2 ^ 12) with 4096.
  change (2 ^ 18) with 262144.
  destruct (N.ltb_spec cp 0x80); [reflexivity |].
  destruct (N.ltb_spec cp 0x800).
  { rewrite (@lor_disjoint 0xC0 _ 5); [reflexivity | reflexivity |].
    apply N.Div0.div_lt_upper_bound. cbn. lia. }
  destruct (N.ltb_spec cp 0x10000).
  { rewrite (@lor_disjoint 0xE0 _ 4); [reflexivity | reflexivity |].
    apply N.Div0.div_lt_upper_bound. cbn. lia. }
  rewrite (@lor_disjoint 0xF0 _ 3); [reflexivity | reflexivity |].
  apply N.Div0.div_lt_upper_bound. cbn. lia.
Qed.

Lemma hex_digit_inj (m n : N) :
  m < 16 -> n < 16 -> hex_digit m = hex_digit n -> m = n.
Proof.
  unfold hex_digit. intros Hm Hn.
  destruct (N.ltb_spec m 10), (N.ltb_spec n 10); lia.
Qed.

Lemma percent_value (o : N) :
  percent o = [37; hex_digit (o / 16); hex_digit (o mod 16)].
Proof.
  unfold percent. rewrite N.shiftr_div_pow2.
  change 0xF with (N.ones 4). now rewrite N.land_ones.
Qed.

Lemma percent_inj (o o' : N) (x y : jsstring) :
  o < 256 -> o' < 256 ->
  percent o ++ x = percent o' ++ y -> o = o' /\ x = y.
Proof.
  intros Ho Ho'. rewrite !percent_value. cbn [app]. intros H.
  injection H as Hhi Hlo Hxy. split; [| exact Hxy].
  apply hex_digit_inj in Hhi;
    [| apply N.Div0.div_lt_upper_bound; lia
     | apply N.Div0.div_lt_upper_bound; lia].
  apply hex_digit_inj in Hlo; [| apply N.mod_lt; lia | apply N.mod_lt; lia].
  rewrite (N.div_mod o 16), (N.div_mod o' 16) by discriminate.
  now rewrite Hhi, Hlo.
Qed.

(** The octets determine the code point: each form of the encoding can be
    read back, and the first octet tells the forms apart. *)
Lemma utf8_cases (cp : N) :
  cp < 0x110000 ->
  (exists o, utf8 cp = [o] /\ o < 0x80 /\ cp = o) \/
  (exists o1 o2,
     utf8 cp = [o1; o2] /\ 0xC0 <= o1 < 0xE0 /\ 0x80 <= o2 < 0xC0 /\
     cp = (o1 - 0xC0) * 64 + (o2 - 0x80)) \/
  (exists o1 o2 o3,
     utf8 cp = [o1; o2; o3] /\ 0xE0 <= o1 < 0xF0 /\ 0x80 <= o2 < 0xC0 /\
     0x80 <= o3 < 0xC0 /\
     cp = (o1 - 0xE0) * 4096 + (o2 - 0x80) * 64 + (o3 - 0x80)) \/
  (exists o1 o2 o3 o4,
     utf8 cp = [o1; o2; o3; o4] /\ 0xF0 <= o1 < 0xF8 /\ 0x80 <= o2 < 0xC0 /\
     0x80 <= o3 < 0xC0 /\ 0x80 <= o4 < 0xC0 /\
     cp = (o1 - 0xF0) * 262144 + (o2 - 0x80) * 4096 + (o3 - 0x80) * 64 +
          (o4 - 0x80)).
Proof.
  intros Hcp. rewrite (utf8_value Hcp).
  pose proof (N.div_mod cp 64 ltac:(discriminate)) as E0.
  pose proof (N.mod_lt cp 64 ltac:(discriminate)) as B0.
  pose proof (N.div_mod (cp / 64) 64 ltac:(discriminate)) as E1.
  pose proof (N.mod_lt (cp / 64) 64 ltac:(discriminate)) as B1.
  pose proof (N.div_mod (cp / 4096) 64 ltac:(discriminate)) as E2.
  pose proof (N.mod_lt (cp / 4096) 64 ltac:(discriminate)) as B2.
  rewrite (N.Div0.div_div cp 64 64) in E1.
  rewrite (N.Div0.div_div cp 4096 64) in E2.
  change (64 * 64) with 4096 in E1. change (4096 * 64) with 262144 in E2.
  assert (H18 : cp / 262144 < 8)
    by (apply N.Div0.div_lt_upper_bound; cbn; lia).
  generalize dependent (cp mod 64). generalize dependent ((cp / 64) mod 64).
  generalize dependent ((cp / 4096) mod 64). generalize dependent (cp / 64).
  generalize dependent (cp / 4096). generalize dependent (cp / 262144).
  intros q18 H18 q12 q6 m12 B2 E2 m6 E1 B1 m0 E0 B0.
  destruct (N.ltb_spec cp 0x80).
  { left. exists cp. now repeat split. }
  destruct (N.ltb_spec cp 0x800).
  { right; left. do 2 eexists. split; [reflexivity | lia]. }
  destruct (N.ltb_spec cp 0x10000).
  { right; right; left. do 3 eexists. split; [reflexivity | lia]. }
  right; right; right. do 4 eexists. split; [reflexivity | lia].
Qed.

Lemma escape_cons (o : N) (os : list N) (r : jsstring) :
  flat_map percent (o :: os) ++ r = percent o ++ flat_map percent os ++ r.
Proof. cbn [flat_map]. now rewrite <- app_assoc. Qed.

Ltac peel H :=
  rewrite ?escape_cons in H;
  apply percent_inj in H; [| lia | lia];
  let Ho := fresh "Ho" in destruct H as [Ho H].

Lemma escape_inj (cp cp' : N) (r r' : jsstring) :
  cp < 0x110000 -> cp' < 0x110000 ->
  escape cp ++ r = escape cp' ++ r' -> cp = cp' /\ r = r'.
Proof.
  intros Hcp Hcp' H. unfold escape in H.
  destruct (utf8_cases Hcp)
    as [(o & U & B & E) | [(o1 & o2 & U & B1 & B2 & E) |
        [(o1 & o2 & o3 & U & B1 & B2 & B3 & E) |
         (o1 & o2 & o3 & o4 & U & B1 & B2 & B3 & B4 & E)]]];
  destruct (utf8_cases Hcp')
    as [(p & V & C & F) | [(p1 & p2 & V & C1 & C2 & F) |
        [(p1 & p2 & p3 & V & C1 & C2 & C3 & F) |
         (p1 & p2 & p3 & p4 & V & C1 & C2 & C3 & C4 & F)]]];
  rewrite U, V in H; peel H; try (exfalso; lia).
  - cbn [flat_map app] in H. split; [lia | exact H].
  - peel H. cbn [flat_map app] in H. split; [lia | exact H].
  - peel H. peel H. cbn [flat_map app] in H. split; [lia | exact H].
  - peel H. peel H. peel H. cbn [flat_map app] in H. split; [lia | exact H].
Qed.

Lemma escape_head (cp : N) :
  cp < 0x110000 -> exists rest, escape cp = 37 :: rest.
Proof.
  intros Hcp. unfold escape.
  destruct (utf8_cases Hcp)
    as [(o & U & _) | [(o1 & o2 & U & _) |
        [(o1 & o2 & o3 & U & _) | (o1 & o2 & o3 & o4 & U & _)]]];
    rewrite U; cbn [flat_map]; rewrite percent_value; cbn [app];
    eexists; reflexivity.
Qed.

(** One step of the encoder: the first code unit is copied, or one code
    point, made of one unit or of a surrogate pair, is escaped. *)
Lemma encodeURIComponent_step (c : N) (rest r : jsstring) :
  code_units (c :: rest) ->
  encodeURIComponent (c :: rest) = inr r ->
  (unescaped c = true /\
   exists r1, encodeURIComponent rest = inr r1 /\ r = c :: r1) \/
  (exists (cp : N) (u rest1 r1 : jsstring),
     c :: rest = u ++ rest1 /\ (List.length rest1 <= List.length rest)%nat /\
     encodeURIComponent rest1 = inr r1 /\ r = escape cp ++ r1 /\
     cp < 0x110000 /\
     ((u = [cp] /\ cp < 0x10000) \/
      (exists a b, u = [a; b] /\ is_leading_surrogate a = true /\
                   is_trailing_surrogate b = true /\
                   cp = pair_to_code_point a b))).
Proof.
  intros Hunits Hr. inversion Hunits as [| c' rest' Hc Hrest]; subst c' rest'.
  cbv beta in Hc. cbn [encodeURIComponent] in Hr.
  destruct (unescaped c) eqn:Hu.
  - left. split; [reflexivity |].
    destruct (encodeURIComponent rest) as [e | r1]; inversion Hr.
    now exists r1.
  - right. destruct (is_trailing_surrogate c); [discriminate |].
    destruct (is_leading_surrogate c) eqn:Hlead.
    + destruct rest as [| d rest2]; [discriminate |].
      destruct (is_trailing_surrogate d) eqn:Htrail; [| discriminate].
      destruct (encodeURIComponent rest2) as [e | r1] eqn:Hr1; inversion Hr.
      exists (pair_to_code_point c d), [c; d], rest2, r1.
      split; [reflexivity |]. split; [cbn; lia |].
      split; [exact Hr1 |]. split; [reflexivity |].
      split; [now apply URIFacts.pair_to_code_point_bound |].
      right. now exists c, d.
    + destruct (encodeURIComponent rest) as [e | r1] eqn:Hr1; inversion Hr.
      exists c, [c], rest, r1.
      split; [reflexivity |]. split; [lia |].
      split; [exact Hr1 |]. split; [reflexivity |].
      split; [lia |].
      left. split; [reflexivity | lia].
Qed.

(** The encoder is injective: equal results come from equal strings. *)
Lemma encodeURIComponent_inj (s t r : jsstring) :
  code_units s -> code_units t ->
  encodeURIComponent s = inr r -> encodeURIComponent t = inr r -> s = t.
Proof.
  remember (List.length s) as n eqn:Hn.
  revert s t r Hn. induction n as [n IH] using lt_wf_ind.
  intros s t r Hn Hs Ht Es Et.
  destruct s as [| c rest], t as [| c' rest'].
  - reflexivity.
  - exfalso. cbn in Es. inversion Es; subst r.
    destruct (encodeURIComponent_step Ht Et)
      as [(_ & r1 & _ & H) | (cp & u & rest1 & r1 & _ & _ & _ & H & Hcp & _)].
    + discriminate.
    + destruct (escape_head Hcp) as [x Hx]. rewrite Hx in H. discriminate.
  - exfalso. cbn in Et. inversion Et; subst r.
    destruct (encodeURIComponent_step Hs Es)
      as [(_ & r1 & _ & H) | (cp & u & rest1 & r1 & _ & _ & _ & H & Hcp & _)].
    + discriminate.
    + destruct (escape_head Hcp) as [x Hx]. rewrite Hx in H. discriminate.
  - cbn in Hn.
    destruct (encodeURIComponent_step Hs Es)
      as [(Hu & r1 & E1 & R1) |
          (cp & u & rest1 & r1 & D1 & L1 & E1 & R1 & Hcp & K1)];
    destruct (encodeURIComponent_step Ht Et)
      as [(Hu' & r2 & E2 & R2) |
          (cp' & u' & rest2 & r2 & D2 & L2 & E2 & R2 & Hcp' & K2)].
    + rewrite R1 in R2. inversion R2; subst c' r2.
      f_equal. inversion Hs; inversion Ht; subst.
      apply (IH (List.length rest) ltac:(lia) rest rest' r1 eq_refl);
        assumption.
    + exfalso. destruct (escape_head Hcp') as [x Hx].
      rewrite R1, Hx in R2. inversion R2; subst c.
      vm_compute in Hu. discriminate.
    + exfalso. destruct (escape_head Hcp) as [x Hx].
      rewrite R2, Hx in R1. inversion R1; subst c'.
      vm_compute in Hu'. discriminate.
    + rewrite R1 in R2. apply escape_inj in R2; [| assumption | assumption].
      destruct R2 as [<- <-].
      assert (Hu : u = u').
      { destruct K1 as [[-> B1] | (a & b & -> & La & Tb & P1)];
        destruct K2 as [[-> B2] | (a' & b' & -> & La' & Tb' & P2)].
        - reflexivity.
        - exfalso. unfold pair_to_code_point in P2. lia.
        - exfalso. unfold pair_to_code_point in P1. lia.
        - unfold is_leading_surrogate, is_trailing_surrogate in *.
          rewrite andb_true_iff, !N.leb_le in La, Tb, La', Tb'.
          unfold pair_to_code_point in P1, P2.
          assert (a = a' /\ b = b') as [-> ->] by lia. reflexivity. }
      subst u'. rewrite D1, D2. f_equal.
      assert (Hs1 : code_units rest1).
      { unfold code_units in *. rewrite D1 in Hs.
        now apply Forall_app in Hs. }
      assert (Ht1 : code_units rest2).
      { unfold code_units in *. rewrite D2 in Ht.
        now apply Forall_app in Ht. }
      apply (IH (List.length rest1) ltac:(lia) rest1 rest2 r1 eq_refl);
        assumption.
Qed.
End URIInjective.

(** X6: two cards have the same href only if their items have the same id
    (after defaulting): the link identifies the cosmetic. *)
Theorem createCard_link_injective (a b : ShopItem) (card_a card_b : Element) :
  code_units (or_default (id a) []) -> code_units (or_default (id b) []) ->
  createCard (present a) = inr card_a -> createCard (present b) = inr card_b ->
  href_of (innerHTML card_a) = href_of (innerHTML card_b) ->
  or_default (id a) [] = or_default (id b) [].
Proof.
  intros Ua Ub Ha Hb Hhref.
  destruct (@createCard_inr_inv _ _ Ha) as (ea & Ea & Hhtml_a & _).
  destruct (@createCard_inr_inv _ _ Hb) as (eb & Eb & Hhtml_b & _).
  assert (Hquote : forall s e, code_units s ->
            URI.encodeURIComponent s = inr e ->
            Forall (fun c => c <> dquote) (ITEM_LINK_BASE ++ e)).
  { intros s e Hs He. apply Forall_app. split; [exact link_base_chars |].
    eapply Forall_impl; [| exact (URIFacts.encodeURIComponent_chars Hs He)].
    intros c. apply URIFacts.uri_char_not_quote. }
  rewrite Hhtml_a, Hhtml_b in Hhref.
  rewrite !href_of_card_markup in Hhref by eauto.
  apply app_inv_head in Hhref. subst eb.
  exact (URIInjective.encodeURIComponent_inj Ua Ub Ea Eb).
Qed.

Lemma createCard_link_injective_witness :
  or_default (id Sample.unnamed) [] =
  or_default
    (id {| id := present (str "Pickaxe Lockjaw"); name := present (str "Lockjaw");
           icon := null; days_since := undefined |}) [].
Proof.
  destruct (createCard_returns Sample.unnamed) as [card_a Ha];
    [vm_compute; reflexivity |].
  destruct (createCard_returns
              {| id := present (str "Pickaxe Lockjaw");
                 name := present (str "Lockjaw");
                 icon := null; days_since := undefined |}) as [card_b Hb];
    [vm_compute; reflexivity |].
  apply (@createCard_link_injective Sample.unnamed
           {| id := present (str "Pickaxe Lockjaw");
              name := present (str "Lockjaw");
              icon := null; days_since := undefined |}
           card_a card_b).
  - apply URIFacts.code_units_check. vm_compute. reflexivity.
  - apply URIFacts.code_units_check. vm_compute. reflexivity.
  - exact Ha.
  - exact Hb.
  - destruct (@createCard_inr_inv _ _ Ha) as (ea & Ea & Hhtml_a & _).
    destruct (@createCard_inr_inv _ _ Hb) as (eb & Eb & Hhtml_b & _).
    assert (Ee : URI.encodeURIComponent (str "Pickaxe Lockjaw") =
                 inr (str "Pickaxe%20Lockjaw")) by (vm_compute; reflexivity).
    cbn [id Sample.unnamed or_default str list_ascii_of_string map] in Ea, Eb.
    change (URI.encodeURIComponent (str "Pickaxe Lockjaw") = inr ea) in Ea.
    change (URI.encodeURIComponent (str "Pickaxe Lockjaw") = inr eb) in Eb.
    rewrite Ee in Ea, Eb. injection Ea as <-. injection Eb as <-.
    rewrite Hhtml_a, Hhtml_b.
    rewrite !href_of_card_markup; [reflexivity | |];
      apply Forall_forall; intros c Hc Hq; subst c;
      vm_compute in Hc; repeat (destruct Hc as [Hc | Hc]; [discriminate |]);
      contradiction.
Defined.

(** ** Every run of the loader *)

Section EveryRun.

Variable fetch : jsstring -> result Response.
Variable toLocaleString : optional jsstring -> jsstring.

Local Notation "'built'" :=
  (Forall2 (fun item card => createCard item = inr card)).
Local Notation "'run'" := (loadData fetch toLocaleString).

Lemma built_cards (l : list (optional ShopItem)) (cards : list Element) :
  built l cards ->
  Forall (fun e => tagName e = str "div" /\ className e = str "card") cards.
Proof.
  induction 1 as [| element card l cards Hcard _ IH]; constructor; [| exact IH].
  destruct (createCard_object _ Hcard) as [item ->].
  destruct (@createCard_inr_inv _ _ Hcard) as (_ & _ & _ & _ & Htag & Hclass).
  now split.
Qed.

(** The six ways a run can go, with the page each one leaves. *)
Lemma run_cases (p : Page) :
  (exists e,
     fetch DATA_URL = inl e /\
     run p = ({| grid := grid p; updatedText := str "Error loading data";
                 console := console p ++
                   [LogMessage (str "Error loading data"); LogError e] |},
              inr tt)) \/
  (exists r,
     fetch DATA_URL = inr r /\ ok r = false /\
     run p = ({| grid := grid p; updatedText := str "Failed to load data";
                 console := console p ++
                   [LogMessage (str "Failed to load data")] |}, inr tt)) \/
  (exists r e,
     fetch DATA_URL = inr r /\ ok r = true /\ json r = inl e /\
     run p = ({| grid := grid p; updatedText := str "Error loading data";
                 console := console p ++
                   [LogMessage (str "Error loading data"); LogError e] |},
              inr tt)) \/
  (exists r data,
     fetch DATA_URL = inr r /\ ok r = true /\ json r = inr data /\
     or_empty (items data) = [] /\
     run p = ({| grid := grid p;
                 updatedText := str "No items in shop right now";
                 console := console p ++
                   [LogMessage (str "No items in shop right now")] |},
              inr tt)) \/
  (exists r data l cards,
     fetch DATA_URL = inr r /\ ok r = true /\ json r = inr data /\
     items data = present l /\ l <> [] /\ built l cards /\
     run p = ({| grid := cards;
                 updatedText :=
                   if truthy (updated_utc data)
                   then str "Updated: " ++ toLocaleString (updated_utc data)
                   else [];
                 console := console p |}, inr tt)) \/
  (exists r data before item after cards e,
     fetch DATA_URL = inr r /\ ok r = true /\ json r = inr data /\
     items data = present (before ++ item :: after) /\
     built before cards /\ createCard item = inl e /\
     run p = ({| grid := cards; updatedText := str "Error loading data";
                 console := console p ++
                   [LogMessage (str "Error loading data"); LogError e] |},
              inr tt)).
Proof.
  destruct (fetch DATA_URL) as [e | r] eqn:Hf.
  { left. exists e. split; [reflexivity |]. eapply run_fetch_rejects; eassumption. }
  right. destruct (ok r) eqn:Hok.
  2: { left. exists r. repeat split; trivial. eapply run_not_ok; eassumption. }
  right. destruct (json r) as [e | data] eqn:Hj.
  { left. exists r, e. repeat split; trivial. eapply run_json_rejects; eassumption. }
  right. destruct (or_empty (items data)) as [| item0 l0] eqn:Hi.
  { left. exists r, data. repeat split; trivial. eapply run_empty; eassumption. }
  right.
  assert (Hitems : items data = present (item0 :: l0))
    by (destruct (items data); cbn in Hi; congruence).
  destruct (Loop.built_or_throws createCard (item0 :: l0))
    as [[cards Hb] | (before & item & after & cards & e & Hl & Hb & He)].
  - left. exists r, data, (item0 :: l0), cards.
    repeat split; trivial; [discriminate |].
    eapply run_success; try eassumption. discriminate.
  - right. exists r, data, before, item, after, cards, e.
    rewrite Hl in Hitems. repeat split; trivial.
    eapply run_render_throws; eassumption.
Qed.

Lemma createCard_href (item : ShopItem) (card : Element) :
  code_units (or_default (id item) []) ->
  createCard (present item) = inr card ->
  exists escaped,
    URI.encodeURIComponent (or_default (id item) []) = inr escaped /\
    href_of (innerHTML card) = ITEM_LINK_BASE ++ escaped.
Proof.
  intros Hunits Hcard.
  destruct (@createCard_inr_inv _ _ Hcard) as (escaped & He & Hhtml & _).
  exists escaped. split; [exact He |].
  rewrite Hhtml. apply href_of_card_markup.
  apply Forall_app. split; [exact link_base_chars |].
  eapply Forall_impl; [| exact (URIFacts.encodeURIComponent_chars Hunits He)].
  intros c. apply URIFacts.uri_char_not_quote.
Qed.

(** X7: a run never throws, whatever the network does and whatever the feed
    holds, so the promise of the call at the end of the script never
    rejects; and it only ever adds to the console, two entries at most. *)
Theorem loadData_always_returns (p : Page) :
  snd (run p) = inr tt /\
  exists logs,
    console (fst (run p)) = console p ++ logs /\ (List.length logs <= 2)%nat.
Proof.
  destruct (run_cases p)
    as [(e & _ & ->) | [(r & _ & _ & ->) | [(r & e & _ & _ & _ & ->) |
        [(r & data & _ & _ & _ & _ & ->) |
         [(r & data & l & cards & _ & _ & _ & _ & _ & _ & ->) |
          (r & data & before & item & after & cards & e &
           _ & _ & _ & _ & _ & _ & ->)]]]]];
    (split; [reflexivity |]); cbn [fst console].
  - eexists. split; [reflexivity | cbn; lia].
  - eexists. split; [reflexivity | cbn; lia].
  - eexists. split; [reflexivity | cbn; lia].
  - eexists. split; [reflexivity | cbn; lia].
  - exists []. split; [now rewrite app_nil_r | cbn; lia].
  - eexists. split; [reflexivity | cbn; lia].
Qed.

(** X8: a run logs nothing exactly when it rendered the feed: the console is
    unchanged if and only if the response was OK, the body parsed, the item
    list was non-empty and the grid now holds the card of every item. *)
Theorem loadData_silent_iff_rendered (p : Page) :
  console (fst (run p)) = console p <->
  exists r data cards,
    fetch DATA_URL = inr r /\ ok r = true /\ json r = inr data /\
    or_empty (items data) <> [] /\
    built (or_empty (items data)) cards /\
    grid (fst (run p)) = cards.
Proof.
  assert (Hgrow : forall (l : list logged) x more, l ++ x :: more <> l).
  { intros l x more H. apply (f_equal (@List.length logged)) in H.
    rewrite length_app in H. cbn in H. lia. }
  split.
  - intros Hsilent.
    destruct (run_cases p)
      as [(e & _ & Hrun) | [(r & _ & _ & Hrun) | [(r & e & _ & _ & _ & Hrun) |
          [(r & data & _ & _ & _ & _ & Hrun) |
           [(r & data & l & cards & Hf & Hok & Hj & Hi & Hne & Hb & Hrun) |
            (r & data & before & item & after & cards & e &
             _ & _ & _ & _ & _ & _ & Hrun)]]]]];
      rewrite Hrun in Hsilent |- *; cbn [fst console grid] in *;
      try (now apply Hgrow in Hsilent).
    exists r, data, cards. rewrite Hi. cbn [or_empty]. now repeat split.
  - intros (r & data & cards & Hf & Hok & Hj & Hne & Hb & _).
    destruct (items data) as [| | l] eqn:Hi; cbn [or_empty] in Hne, Hb;
      try congruence.
    erewrite run_success by eassumption. reflexivity.
Qed.

(** X9: the status text a run leaves does not depend on the page it started
    from, only on the outcome of the request: the text shown before is
    always overwritten. *)
Theorem loadData_status_independent (p q : Page) :
  updatedText (fst (run p)) = updatedText (fst (run q)).
Proof.
  destruct (run_cases p)
    as [(e & Hf & ->) | [(r & Hf & Hok & ->) | [(r & e & Hf & Hok & Hj & ->) |
        [(r & data & Hf & Hok & Hj & Hi & ->) |
         [(r & data & l & cards & Hf & Hok & Hj & Hi & Hne & Hb & ->) |
          (r & data & before & item & after & cards & e &
           Hf & Hok & Hj & Hi & Hb & He & ->)]]]]]; cbn [fst updatedText].
  - erewrite run_fetch_rejects by eassumption. reflexivity.
  - erewrite run_not_ok by eassumption. reflexivity.
  - erewrite run_json_rejects by eassumption. reflexivity.
  - erewrite run_empty by eassumption. reflexivity.
  - erewrite run_success by eassumption. reflexivity.
  - erewrite run_render_throws by eassumption. reflexivity.
Qed.

(** X10: loading again with the same outcome of the request changes neither
    the grid nor the status text: cards are never duplicated. *)
Theorem loadData_idempotent (p : Page) :
  grid (fst (run (fst (run p)))) = grid (fst (run p)) /\
  updatedText (fst (run (fst (run p)))) = updatedText (fst (run p)).
Proof.
  destruct (run_cases p)
    as [(e & Hf & ->) | [(r & Hf & Hok & ->) | [(r & e & Hf & Hok & Hj & ->) |
        [(r & data & Hf & Hok & Hj & Hi & ->) |
         [(r & data & l & cards & Hf & Hok & Hj & Hi & Hne & Hb & ->) |
          (r & data & before & item & after & cards & e &
           Hf & Hok & Hj & Hi & Hb & He & ->)]]]]]; cbn [fst].
  - erewrite run_fetch_rejects by eassumption. now split.
  - erewrite run_not_ok by eassumption. now split.
  - erewrite run_json_rejects by eassumption. now split.
  - erewrite run_empty by eassumption. now split.
  - erewrite run_success by eassumption. now split.
  - erewrite run_render_throws by eassumption. now split.
Qed.

(** X11: what a run leaves in the grid.  If the request fails, the status
    is not OK, the body does not parse or the item list is empty or absent,
    the grid is untouched.  Otherwise the old children are gone and the
    grid holds, in feed order, the cards of the items before the first one
    whose card fails to build, and nothing else: the cards of all the items
    if none fails. *)
Theorem loadData_grid_prefix (p : Page) :
  (((exists e, fetch DATA_URL = inl e) \/
    (exists r, fetch DATA_URL = inr r /\
       (ok r = false \/ (exists e, json r = inl e) \/
        exists data, json r = inr data /\ or_empty (items data) = []))) /\
   grid (fst (run p)) = grid p) \/
  (exists r data before after,
     fetch DATA_URL = inr r /\ ok r = true /\ json r = inr data /\
     or_empty (items data) = before ++ after /\
     or_empty (items data) <> [] /\
     built before (grid (fst (run p))) /\
     (after = [] \/
      exists item rest e, after = item :: rest /\ createCard item = inl e)).
Proof.
  destruct (run_cases p)
    as [(e & Hf & ->) | [(r & Hf & Hok & ->) | [(r & e & Hf & Hok & Hj & ->) |
        [(r & data & Hf & Hok & Hj & Hi & ->) |
         [(r & data & l & cards & Hf & Hok & Hj & Hi & Hne & Hb & ->) |
          (r & data & before & item & after & cards & e &
           Hf & Hok & Hj & Hi & Hb & He & ->)]]]]]; cbn [fst grid].
  - left. split; [left; now exists e | reflexivity].
  - left. split; [right; exists r; split; [exact Hf | now left] | reflexivity].
  - left. split; [| reflexivity].
    right. exists r. split; [exact Hf |]. right; left. now exists e.
  - left. split; [| reflexivity].
    right. exists r. split; [exact Hf |]. right; right. now exists data.
  - right. exists r, data, l, []. rewrite Hi, app_nil_r. cbn [or_empty].
    repeat split; trivial. now left.
  - right. exists r, data, before, (item :: after). rewrite Hi. cbn [or_empty].
    repeat split; trivial; [now destruct before |].
    right. now exists item, after, e.
Qed.

(** X12: if every child of the grid is a div of class "card" before a run,
    the same holds after it. *)
Theorem loadData_cards_invariant (p : Page) :
  Forall (fun e => tagName e = str "div" /\ className e = str "card")
    (grid p) ->
  Forall (fun e => tagName e = str "div" /\ className e = str "card")
    (grid (fst (run p))).
Proof.
  intros Hp.
  destruct (run_cases p)
    as [(e & Hf & ->) | [(r & Hf & Hok & ->) | [(r & e & Hf & Hok & Hj & ->) |
        [(r & data & Hf & Hok & Hj & Hi & ->) |
         [(r & data & l & cards & Hf & Hok & Hj & Hi & Hne & Hb & ->) |
          (r & data & before & item & after & cards & e &
           Hf & Hok & Hj & Hi & Hb & He & ->)]]]]]; cbn [fst grid];
    try exact Hp; now apply built_cards in Hb.
Qed.

(** X13: after a successful load of a feed whose items are objects, the card
    at each position links to the item at that position: its href is the
    base address followed by encodeURIComponent of the id of that item. *)
Theorem loadData_links (r : Response) (data : ShopFeed) (l : list ShopItem)
        (p : Page) :
  fetch DATA_URL = inr r -> ok r = true -> json r = inr data ->
  items data = present (map present l) -> l <> [] ->
  Forall (fun item => code_units (or_default (id item) []) /\
                      URI.well_formed (or_default (id item) []) = true) l ->
  Forall2 (fun item card =>
             exists escaped,
               URI.encodeURIComponent (or_default (id item) []) = inr escaped /\
               href_of (innerHTML card) = ITEM_LINK_BASE ++ escaped)
    l (grid (fst (run p))).
Proof.
  intros Hf Hok Hj Hi Hne Hall.
  assert (Hwf : Forall buildable (map present l)).
  { apply Forall_map. eapply Forall_impl; [| exact Hall].
    intros item [_ H]. now exists item. }
  assert (Hne' : map present l <> []) by (now destruct l).
  destruct (built_of_buildable Hwf) as [cards Hb].
  erewrite run_success by eassumption. cbn [fst grid].
  clear Hi Hne Hne' Hwf. revert cards Hb.
  induction Hall as [| item l [Hunits _] _ IH]; intros cards Hb;
    inversion Hb as [| ? card ? cards' Hcard Hrest]; subst.
  - constructor.
  - constructor; [now apply createCard_href | now apply IH].
Qed.

End EveryRun.

Lemma loadData_silent_iff_rendered_witness :
  console
    (fst (loadData
            (Sample.serve
               (Sample.responds true
                  (inr (Sample.feed [present Sample.renegade]))))
            Sample.iso Sample.stale)) = console Sample.stale.
Proof.
  destruct (createCard_returns Sample.renegade) as [card Hcard];
    [vm_compute; reflexivity |].
  apply (proj2 (@loadData_silent_iff_rendered
                  (Sample.serve
                     (Sample.responds true
                        (inr (Sample.feed [present Sample.renegade]))))
                  Sample.iso Sample.stale)).
  exists {| ok := true; json := inr (Sample.feed [present Sample.renegade]) |},
    (Sample.feed [present Sample.renegade]), [card].
  split; [reflexivity |]. split; [reflexivity |]. split; [reflexivity |].
  split; [discriminate |].
  split; [constructor; [exact Hcard | constructor] |].
  erewrite run_success;
    [reflexivity | reflexivity | reflexivity | reflexivity | reflexivity
     | discriminate | constructor; [exact Hcard | constructor]].
Defined.

Lemma loadData_cards_invariant_witness :
  Forall (fun e => tagName e = str "div" /\ className e = str "card")
    (grid (fst (loadData
                  (Sample.serve
                     (Sample.responds true
                        (inr (Sample.feed [present Sample.renegade;
                                           present Sample.unpaired]))))
                  Sample.iso Sample.stale))).
Proof.
  apply loadData_cards_invariant.
  repeat constructor.
Defined.

Lemma loadData_links_witness :
  Forall2 (fun item card =>
             exists escaped,
               URI.encodeURIComponent (or_default (id item) []) = inr escaped /\
               href_of (innerHTML card) = ITEM_LINK_BASE ++ escaped)
    [Sample.renegade; Sample.unnamed]
    (grid (fst (loadData
                  (Sample.serve
                     (Sample.responds true
                        (inr (Sample.feed [present Sample.renegade;
                                           present Sample.unnamed]))))
                  Sample.iso Sample.stale))).
Proof.
  apply (@loadData_links
           (Sample.serve
              (Sample.responds true
                 (inr (Sample.feed [present Sample.renegade;
                                    present Sample.unnamed]))))
           Sample.iso _ _ [Sample.renegade; Sample.unnamed] Sample.stale
           eq_refl eq_refl eq_refl eq_refl ltac:(discriminate)).
  repeat (constructor;
          [split; [apply URIFacts.code_units_check |]; vm_compute; reflexivity |]).
  constructor.
Defined.

(** ** The older script [docs/app.js]

    It tests neither the status nor the item count, never clears the grid,
    and reports every failure as "Failed to load data"; it is not the loader
    the properties above are about. *)

Module DocsFacts.

Section Chain.
Variable fetch : jsstring -> result Response.
Variable toLocaleString : optional jsstring -> jsstring.

Local Notation "'built'" :=
  (Forall2 (fun item card => Docs.card_of item = inr card)).


Lemma built_objects (l : list ShopItem) :
  built (map present l) (map Docs.card l).
Proof. induction l; constructor; [reflexivity | assumption]. Qed.

(** Whatever the status, the cards are appended after the children the
    grid already has. *)
Lemma load_appends (r : Response) (data : ShopFeed)
      (l : list (optional ShopItem)) (cards : list Element) (p : Page) :
  fetch (str "./data/top.json") = inr r -> json r = inr data ->
  items data = present l -> built l cards ->
  Docs.load fetch toLocaleString p =
    ({| grid := grid p ++ cards;
        updatedText := str "Updated: " ++ toLocaleString (updated_utc data);
        console := console p |}, inr tt).
Proof.
  intros Hf Hj Hi Hb. unfold Docs.load, try_catch.
  unfold bind at 1. unfold lift at 1. rewrite Hf.
  unfold bind at 1. unfold lift at 1. rewrite Hj, Hi.
  unfold bind at 1. rewrite (@Loop.forEach_built Docs.card_of _ _ Hb).
  reflexivity.
Qed.


End Chain.

Example load_not_ok_renders :
  grid (fst (Docs.load
               (Sample.serve
                  (Sample.responds false
                     (inr (Sample.feed [present Sample.unnamed]))))
               Sample.iso Sample.stale)) =
  grid Sample.stale ++ [Docs.card Sample.unnamed].
Proof. vm_compute. reflexivity. Qed.

(** A [null] element ends the loop of the older script too: the card before
    it is kept and the failure is reported. *)
Example load_null_element :
  let page :=
    fst (Docs.load
           (Sample.serve
              (Sample.responds true
                 (inr (Sample.feed [present Sample.unnamed; null;
                                    present Sample.renegade]))))
           Sample.iso Sample.stale) in
  grid page = grid Sample.stale ++ [Docs.card Sample.unnamed] /\
  updatedText page = str "Failed to load data".
Proof. vm_compute. split; reflexivity. Qed.

End DocsFacts.

(** ** Every run of the older script *)

Module DocsRuns.

Section Chain.
Variable fetch : jsstring -> result Response.
Variable toLocaleString : optional jsstring -> jsstring.

Local Notation "'built'" :=
  (Forall2 (fun item card => Docs.card_of item = inr card)).
Local Notation "'run'" := (Docs.load fetch toLocaleString).



(** X15: loading twice with the same outcome, a feed whose items are
    objects, shows every item twice: the second run appends its cards after
    those of the first. *)
Theorem load_twice_duplicates (r : Response) (data : ShopFeed)
        (l : list ShopItem) (p : Page) :
  fetch (str "./data/top.json") = inr r -> json r = inr data ->
  items data = present (map present l) ->
  grid (fst (run (fst (run p)))) =
    grid p ++ map Docs.card l ++ map Docs.card l.
Proof.
  intros Hf Hj Hi.
  pose proof (DocsFacts.built_objects l) as Hb.
  erewrite DocsFacts.load_appends by eassumption. cbn [fst grid].
  erewrite DocsFacts.load_appends by eassumption. cbn [fst grid].
  now rewrite <- app_assoc.
Qed.

(** X16: a feed without an [items] key, or with [null] for it, is reported
    like a network failure: "Failed to load data", a TypeError in the
    console, the grid as before. *)
Theorem load_missing_items (r : Response) (data : ShopFeed) (p : Page) :
  fetch (str "./data/top.json") = inr r -> json r = inr data ->
  items data = undefined \/ items data = null ->
  exists msg,
    run p = ({| grid := grid p; updatedText := str "Failed to load data";
                console := console p ++ [LogError (TypeError msg)] |},
             inr tt).
Proof.
  intros Hf Hj [Hi | Hi]; eexists;
    unfold Docs.load, try_catch, bind, lift; rewrite Hf, Hj, Hi; reflexivity.
Qed.

End Chain.

(** X17: the chain does not look at the status of the response: two responses
    with the same body give the same run, OK or not. *)
Theorem load_ignores_status
        (fetch fetch' : jsstring -> result Response)
        (toLocaleString : optional jsstring -> jsstring)
        (r r' : Response) (p : Page) :
  fetch (str "./data/top.json") = inr r ->
  fetch' (str "./data/top.json") = inr r' ->
  json r = json r' ->
  Docs.load fetch toLocaleString p = Docs.load fetch' toLocaleString p.
Proof.
  intros Hf Hf' Hj. unfold Docs.load, try_catch.
  unfold bind at 1 4. unfold lift at 1 3. rewrite Hf, Hf'.
  unfold bind at 1 3. unfold lift at 1 3. now rewrite Hj.
Qed.

Lemma load_twice_duplicates_witness :
  List.length
    (grid (fst (Docs.load
                  (Sample.serve
                     (Sample.responds true
                        (inr (Sample.feed [present Sample.unnamed]))))
                  Sample.iso
                  (fst (Docs.load
                          (Sample.serve
                             (Sample.responds true
                                (inr (Sample.feed [present Sample.unnamed]))))
                          Sample.iso Sample.stale))))) = 3%nat.
Proof.
  rewrite (@load_twice_duplicates
             (Sample.serve
                (Sample.responds true
                   (inr (Sample.feed [present Sample.unnamed]))))
             Sample.iso _ _ [Sample.unnamed] Sample.stale
             eq_refl eq_refl eq_refl).
  reflexivity.
Defined.

Lemma load_missing_items_witness :
  updatedText
    (fst (Docs.load
            (Sample.serve
               (Sample.responds true
                  (inr {| items := undefined; updated_utc := undefined |})))
            Sample.iso Sample.stale)) = str "Failed to load data".
Proof.
  destruct (@load_missing_items
              (Sample.serve
                 (Sample.responds true
                    (inr {| items := undefined; updated_utc := undefined |})))
              Sample.iso _ _ Sample.stale eq_refl eq_refl (or_introl eq_refl))
    as [msg ->].
  reflexivity.
Defined.

Lemma load_ignores_status_witness :
  Docs.load
    (Sample.serve
       (Sample.responds false (inr (Sample.feed [present Sample.renegade]))))
    Sample.iso Sample.stale =
  Docs.load
    (Sample.serve
       (Sample.responds true (inr (Sample.feed [present Sample.renegade]))))
    Sample.iso Sample.stale.
Proof.
  exact (@load_ignores_status
           (Sample.serve
              (Sample.responds false
                 (inr (Sample.feed [present Sample.renegade]))))
           (Sample.serve
              (Sample.responds true
                 (inr (Sample.feed [present Sample.renegade]))))
           Sample.iso _ _ Sample.stale eq_refl eq_refl eq_refl).
Defined.

End DocsRuns.
